(** * fly-acgn-quiz: the quiz session and its scoring, embedded from App.jsx

    The repository holds three versions of the [App] component.  The two
    single-index versions carry the same session logic and are modelled in
    full; of the later multi-select version, module [Multi] models the
    selection and the scoring.  The model covers the basket of selected
    question ids, the session phase, the answer records, the memoised [perIPCounts] and [scoreSummary], and the
    handlers [toggleBasket], [startQuiz], [resetAll], [revealReferences] and
    [finishAndShowScore], together with the conditions under which the
    sidebar renders or enables the buttons bound to them.

    React state is modelled by explicit state passing: a handler runs against
    the state of the render that created it and yields the state of the next
    render.  Plain JS objects used as dictionaries ([answers], [m], [byIP],
    [byLevel]) are finite maps with string keys; topic names are assumed not
    to collide with members of [Object.prototype].  JS numbers are the
    integers the application produces (point values, indices, counts), so
    they are modelled by [Z]. *)

From Stdlib Require Import ZArith String List Lia.
From stdpp Require Import gmap strings list fin_maps.

Local Open Scope string_scope.
Local Open Scope Z_scope.

(** ** JavaScript values and abrupt completion *)

Module JS.

(** The values that reach the fields read by the session logic.  Arrays are
    included because a field read by the scorer may hold one; they are
    objects, which [===] compares by identity. *)
Inductive jsval : Type :=
| JUndefined
| JNull
| JBool (b : bool)
| JNum (n : Z)
| JStr (s : string)
| JArr (elems : list Z).

(** [typeof v] *)
Definition typeof (v : jsval) : string :=
  match v with
  | JUndefined => "undefined"
  | JNull => "object"
  | JBool _ => "boolean"
  | JNum _ => "number"
  | JStr _ => "string"
  | JArr _ => "object"
  end.

(** [a === b].  Primitives compare by value.  Two arrays are equal only when
    they are the same object; a question of the bank and an answer record
    built by a click handler never share one, so array operands compare
    unequal. *)
Definition strict_eq (a b : jsval) : bool :=
  match a, b with
  | JUndefined, JUndefined => true
  | JNull, JNull => true
  | JBool x, JBool y => Bool.eqb x y
  | JNum x, JNum y => Z.eqb x y
  | JStr x, JStr y => String.eqb x y
  | _, _ => false
  end.

(** [x || 0] where [x] is the result of reading a numeric dictionary entry:
    [undefined] and [0] are falsy. *)
Definition or0 (x : option Z) : Z :=
  match x with
  | Some v => if Z.eqb v 0 then 0 else v
  | None => 0
  end.

Inductive js_error : Type := TypeError.

(** The outcome of running a piece of code: a value, or a thrown error. *)
Inductive completion (A : Type) : Type :=
| Returned (v : A)
| Threw (e : js_error).
Arguments Returned {A} v.
Arguments Threw {A} e.

(** Sequencing: a thrown error skips the rest of the code. *)
Definition bind {A B : Type} (c : completion A) (k : A -> completion B)
  : completion B :=
  match c with
  | Returned v => k v
  | Threw e => Threw e
  end.

Notation "'let!' x ':=' c 'in' k" := (bind c (fun x => k))
  (at level 10, x name, c at level 200, k at level 200).

(** A variable holding an object or [undefined] is an [option]. [truthy o]
    is the condition [o] of an [if (o)] / [o && ...]. *)
Definition truthy {A : Type} (o : option A) : bool :=
  match o with Some _ => true | None => false end.

(** [b && c]: [c] is evaluated only when [b] holds. *)
Definition and_also (b : bool) (c : completion bool) : completion bool :=
  if b then c else Returned false.

(** [o.f]: reading a property of [undefined] throws a [TypeError]. *)
Definition prop {A B : Type} (o : option A) (f : A -> B) : completion B :=
  match o with
  | Some x => Returned (f x)
  | None => Threw TypeError
  end.

End JS.

Export JS.

(** ** The data of a session *)

Module Quiz.

(** [q.type]; ["info"] is the legacy kind the views filter out. *)
Inductive QType : Type := mcq | fill | short | reading | info.

(** [q.level], one of the keys of [LEVEL_POINTS]. *)
Inductive Level : Type := LvA | LvB | LvC | LvS.

#[global] Instance QType_eq_dec : EqDecision QType.
Proof. solve_decision. Defined.
#[global] Instance Level_eq_dec : EqDecision Level.
Proof. solve_decision. Defined.

(** The property name of a level in [LEVEL_POINTS] and [byLevel]. *)
Definition level_key (l : Level) : string :=
  match l with LvA => "a" | LvB => "b" | LvC => "c" | LvS => "s" end.

(** [const LEVEL_POINTS = { a: 3, b: 2, c: 1, s: 5 }] *)
Definition LEVEL_POINTS (l : Level) : Z :=
  match l with LvA => 3 | LvB => 2 | LvC => 1 | LvS => 5 end.

(** A question of the bank, with the fields the session logic reads
    ([title], [options] and [reference] only feed the views). *)
Record Question : Type := {
  id : string;
  ip : string;
  type : QType;
  level : Level;
  correctIndex : jsval
}.

(** An answer record [answers[qid]].  A property that was never recorded
    reads as [JUndefined]. *)
Record Answer : Type := {
  choiceIndex : jsval;
  manualScore : jsval
}.

(** [phase]: pick | running | confirm | finished *)
Inductive Phase : Type := pick | running | confirm | finished.

(** [tab]: welcome | quiz | admin *)
Inductive Tab : Type := welcome | quiz | admin.

#[global] Instance Phase_eq_dec : EqDecision Phase.
Proof. solve_decision. Defined.
#[global] Instance Tab_eq_dec : EqDecision Tab.
Proof. solve_decision. Defined.

(** The state held by [App] that the session handlers read or write. *)
Record App : Type := {
  tab : Tab;
  questions : list Question;
  selectedIP : string;
  basket : list string;
  phase : Phase;
  answers : gmap string Answer
}.

(** The texts passed to [alert]. *)
Inductive Alert : Type :=
| AlertTotalCap   (* "已达总数上限（最多 5 题）" *)
| AlertIPCap      (* "该 IP 已选 2 题上限" *)
| AlertEmpty.     (* "请先选择题目" *)

(** What a handler leaves behind: the next state and the alert shown. *)
Definition Effect : Type := (App * option Alert)%type.

Definition set_basket (st : App) (bk : list string) : App :=
  {| tab := tab st; questions := questions st; selectedIP := selectedIP st;
     basket := bk; phase := phase st; answers := answers st |}.

Definition set_phase (st : App) (p : Phase) : App :=
  {| tab := tab st; questions := questions st; selectedIP := selectedIP st;
     basket := basket st; phase := p; answers := answers st |}.

Definition set_tab (st : App) (t : Tab) : App :=
  {| tab := t; questions := questions st; selectedIP := selectedIP st;
     basket := basket st; phase := phase st; answers := answers st |}.

Definition set_answers (st : App) (a : gmap string Answer) : App :=
  {| tab := tab st; questions := questions st; selectedIP := selectedIP st;
     basket := basket st; phase := phase st; answers := a |}.

Definition set_selectedIP (st : App) (s : string) : App :=
  {| tab := tab st; questions := questions st; selectedIP := s;
     basket := basket st; phase := phase st; answers := answers st |}.

(** ** Selection: perIPCounts, inBasket, toggleBasket *)

(** [questions.find((x) => x.id === id)] *)
Definition find_question (qs : list Question) (i : string) : option Question :=
  List.find (fun x => String.eqb (id x) i) qs.

(** One turn of [for (const id of basket)] in [perIPCounts]. *)
Definition count_step (qs : list Question) (m : gmap string Z) (i : string)
  : completion (gmap string Z) :=
  let q := find_question qs i in
  if negb (truthy q) then Returned m                       (* if (!q) continue; *)
  else
    let! k := prop q ip in
    Returned (<[k := or0 (m !! k) + 1]> m).                (* m[q.ip] = (m[q.ip] || 0) + 1 *)

Fixpoint count_loop (qs : list Question) (m : gmap string Z) (bk : list string)
  : completion (gmap string Z) :=
  match bk with
  | [] => Returned m
  | i :: rest => let! m' := count_step qs m i in count_loop qs m' rest
  end.

Definition perIPCounts (qs : list Question) (bk : list string)
  : completion (gmap string Z) :=
  count_loop qs ∅ bk.

(** [basket.includes(id)] *)
Definition inBasket (bk : list string) (i : string) : bool :=
  existsb (fun x => String.eqb x i) bk.

Definition toggleBasket (st : App) (i : string) : completion Effect :=
  let! counts := perIPCounts (questions st) (basket st) in
  if inBasket (basket st) i
  then Returned (set_basket st (filter (fun x => x ≠ i) (basket st)), None)
  else
    let q := find_question (questions st) i in
    let totalOk := Z.of_nat (length (basket st)) <? 5 in
    let! k := prop q ip in
    let ipOk := (or0 (counts !! k) <? 2) || inBasket (basket st) i in
    if negb totalOk then Returned (st, Some AlertTotalCap)
    else if negb ipOk then Returned (st, Some AlertIPCap)
    else Returned (set_basket st (basket st ++ [i]), None).

(** ** Phases: startQuiz, resetAll, revealReferences, finishAndShowScore *)

Definition startQuiz (st : App) : Effect :=
  if Nat.eqb (length (basket st)) 0 then (st, Some AlertEmpty)
  else (set_tab (set_phase st running) quiz, None).

Definition resetAll (st : App) : Effect :=
  (set_selectedIP
     (set_tab (set_answers (set_phase (set_basket st []) pick) ∅) welcome) "",
   None).

Definition revealReferences (st : App) : Effect :=
  (set_phase st confirm, None).

Definition finishAndShowScore (st : App) : Effect :=
  (set_phase st finished, None).

(** ** Scoring: scoreSummary *)

Record Summary : Type := {
  total : Z;
  byIP : gmap string Z;
  byLevel : gmap string Z
}.

(** [total = 0; byIP = {}; byLevel = { a: 0, b: 0, c: 0, s: 0 }] *)
Definition summary0 : Summary :=
  {| total := 0;
     byIP := ∅;
     byLevel := <["a" := 0]> (<["b" := 0]> (<["c" := 0]> (<["s" := 0]> ∅))) |}.

(** The number held by a value whose [typeof] is ["number"]. *)
Definition number_of (m : jsval) : Z :=
  match m with JNum n => n | _ => 0 end.

(** One turn of [for (const id of basket)] in [scoreSummary]. *)
Definition score_step (qs : list Question) (ans_of : gmap string Answer)
    (acc : Summary) (i : string) : completion Summary :=
  let q := find_question qs i in
  if negb (truthy q) then Returned acc                     (* if (!q) continue; *)
  else
    let ans := ans_of !! i in
    let! ty := prop q type in
    let! gained :=
      if bool_decide (ty = mcq) then
        (* if (ans && ans.choiceIndex === q.correctIndex) gained = LEVEL_POINTS[q.level]; *)
        let! hit := and_also (truthy ans)
                      (let! c := prop ans choiceIndex in
                       let! k := prop q correctIndex in
                       Returned (strict_eq c k)) in
        if hit then let! lv := prop q level in Returned (LEVEL_POINTS lv)
        else Returned 0
      else
        (* if (ans && typeof ans.manualScore === "number") gained = ans.manualScore; *)
        let! isnum := and_also (truthy ans)
                        (let! m := prop ans manualScore in
                         Returned (String.eqb (typeof m) "number")) in
        if isnum then let! m := prop ans manualScore in Returned (number_of m)
        else Returned 0
    in
    let! k := prop q ip in
    let! lv := prop q level in
    Returned {| total := total acc + gained;
            byIP := <[k := or0 (byIP acc !! k) + gained]> (byIP acc);
            byLevel := alter (fun v => v + gained) (level_key lv) (byLevel acc) |}.

Fixpoint score_loop (qs : list Question) (ans_of : gmap string Answer)
    (acc : Summary) (bk : list string) : completion Summary :=
  match bk with
  | [] => Returned acc
  | i :: rest =>
      let! acc' := score_step qs ans_of acc i in score_loop qs ans_of acc' rest
  end.

Definition scoreSummary (qs : list Question) (bk : list string)
    (ans_of : gmap string Answer) : completion Summary :=
  score_loop qs ans_of summary0 bk.

(** ** The controls of the sidebar and of the question cards

    The handlers are reached through buttons; the component decides per
    render which of them exist and which are disabled. *)

(** [visibleQuestions] of [QuizArea]: in the pick phase the questions of the
    selected topic (all of them when none is selected), afterwards those of
    the basket; legacy info items are dropped. *)
Definition visibleQuestions (st : App) : list Question :=
  let list :=
    if bool_decide (phase st = pick)
    then List.filter (fun q => String.eqb (selectedIP st) "" || String.eqb (ip q) (selectedIP st))
                     (questions st)
    else List.filter (fun q => inBasket (basket st) (id q)) (questions st) in
  List.filter (fun q => negb (bool_decide (type q = info))) list.

Inductive Control : Type :=
| BtnStart                 (* onClick={startQuiz} *)
| BtnReset                 (* onClick={resetAll} *)
| BtnReveal                (* onClick={revealReferences} *)
| BtnFinish                (* onClick={finishAndShowScore} *)
| BtnToggle (i : string).  (* onClick={() => toggleBasket(q.id)} *)

(** Whether a control is rendered and enabled in the render of [st]:
    - start: [disabled={basket.length === 0 || phase !== "pick"}];
    - reset: always;
    - reveal: [{phase === "running" && ...}];
    - finish: [{phase === "confirm" && ...}];
    - toggle: on the card of a visible question, [tab === "quiz"] and
      [phase === "pick"]. *)
Definition usable (st : App) (c : Control) : bool :=
  match c with
  | BtnStart =>
      negb (Nat.eqb (length (basket st)) 0 || negb (bool_decide (phase st = pick)))
  | BtnReset => true
  | BtnReveal => bool_decide (phase st = running)
  | BtnFinish => bool_decide (phase st = confirm)
  | BtnToggle i =>
      bool_decide (tab st = quiz) && bool_decide (phase st = pick)
      && existsb (fun q => String.eqb (id q) i) (visibleQuestions st)
  end.

(** The handler bound to a control, called directly. *)
Definition handler (st : App) (c : Control) : completion Effect :=
  match c with
  | BtnStart => Returned (startQuiz st)
  | BtnReset => Returned (resetAll st)
  | BtnReveal => Returned (revealReferences st)
  | BtnFinish => Returned (finishAndShowScore st)
  | BtnToggle i => toggleBasket st i
  end.

(** A click on a control: the handler runs only when the control is there. *)
Definition click (st : App) (c : Control) : completion Effect :=
  if usable st c then handler st c else Returned (st, None).

(** ** Notions used to state the properties *)

(** The topic of a basket member, when its question still exists. *)
Definition topic_of (qs : list Question) (i : string) : option string :=
  ip <$> find_question qs i.

(** The number of basket members whose topic is [T]. *)
Definition count_topic (qs : list Question) (bk : list string) (T : string) : nat :=
  length (filter (fun i => topic_of qs i = Some T) bk).

(** The caps of the selection: at most 5 questions, at most 2 per topic. *)
Definition caps_hold (qs : list Question) (bk : list string) : Prop :=
  (length bk <= 5)%nat /\ forall T, (count_topic qs bk T <= 2)%nat.

(** The state after a call of [toggleBasket] has returned or thrown; a
    throw leaves the state of the render in place. *)
Definition after_toggle (st : App) (i : string) : App :=
  match toggleBasket st i with
  | Returned (st', _) => st'
  | Threw _ => st
  end.

Definition after_toggles (st : App) (ids : list string) : App :=
  fold_left after_toggle ids st.

(** The phase moves of the session state machine: the designated operation
    from its source phase, or reset back to pick. *)
Definition designated (p : Phase) (c : Control) (p' : Phase) : Prop :=
  (c = BtnReset /\ p' = pick)
  \/ (p = pick /\ c = BtnStart /\ p' = running)
  \/ (p = running /\ c = BtnReveal /\ p' = confirm)
  \/ (p = confirm /\ c = BtnFinish /\ p' = finished).

(** The exact-match rule in the words of the specification: the points when
    the chosen set equals the correct set, otherwise nothing. *)
Definition exact_match_award (points : Z) (correct chosen : gset Z) : Z :=
  if bool_decide (chosen = correct) then points else 0.

(** The sum of the values of a tally. *)
Definition sum_values (m : gmap string Z) : Z :=
  map_fold (fun _ v acc => v + acc) 0 m.

(** What one found question adds to the three tallies, given its gain. *)
Definition credit (acc : Summary) (q : Question) (g : Z) : Summary :=
  {| total := total acc + g;
     byIP := <[ip q := or0 (byIP acc !! ip q) + g]> (byIP acc);
     byLevel := alter (fun v => v + g) (level_key (level q)) (byLevel acc) |}.

(** The gain of a found question under the answer record read for it. *)
Definition gain (q : Question) (a : option Answer) : Z :=
  match type q with
  | mcq =>
      match a with
      | Some r => if strict_eq (choiceIndex r) (correctIndex q)
                  then LEVEL_POINTS (level q) else 0
      | None => 0
      end
  | _ =>
      match a with
      | Some r => match manualScore r with JNum n => n | _ => 0 end
      | None => 0
      end
  end.

(** A summary whose three tallies agree and whose level tally has its four
    entries. *)
Definition consistent (r : Summary) : Prop :=
  total r = sum_values (byIP r)
  /\ total r = sum_values (byLevel r)
  /\ forall l : Level, is_Some (byLevel r !! level_key l).

(** Sample data *)
Definition answer_choice (v : jsval) : Answer :=
  {| choiceIndex := v; manualScore := JUndefined |}.

Definition answer_manual (v : jsval) : Answer :=
  {| choiceIndex := JUndefined; manualScore := v |}.

Definition sample_mcq : Question :=
  {| id := "q1"; ip := "X"; type := mcq; level := LvB; correctIndex := JNum 1 |}.

Definition fill_question (l : Level) : Question :=
  {| id := "q4"; ip := "Y"; type := fill; level := l; correctIndex := JUndefined |}.

Definition sample_short : Question :=
  {| id := "q2"; ip := "Y"; type := short; level := LvS; correctIndex := JUndefined |}.

(** The bank of the end-to-end scenario: three multiple-choice questions of
    topic X (correct index 1, level b) and a short-answer question of topic
    Y (level a). *)
Definition scenario_bank : list Question :=
  [ {| id := "x1"; ip := "X"; type := mcq; level := LvB; correctIndex := JNum 1 |};
    {| id := "x2"; ip := "X"; type := mcq; level := LvB; correctIndex := JNum 1 |};
    {| id := "x3"; ip := "X"; type := mcq; level := LvB; correctIndex := JNum 1 |};
    {| id := "y1"; ip := "Y"; type := short; level := LvA; correctIndex := JUndefined |} ].

Definition scenario_state (bk : list string) : App :=
  {| tab := quiz; questions := scenario_bank; selectedIP := "";
     basket := bk; phase := pick; answers := ∅ |}.

Definition sample_state (bk : list string) (p : Phase) : App :=
  {| tab := quiz; questions := [sample_mcq; sample_short]; selectedIP := "";
     basket := bk; phase := p; answers := ∅ |}.

(** ** Recording answers: setAnswer, MCQBlock, ManualBlock *)

(** The object passed as [data] to [setAnswer]: the properties it owns. *)
Record Patch : Type := {
  patch_choiceIndex : option jsval;
  patch_manualScore : option jsval
}.

(** [{}] *)
Definition empty_answer : Answer :=
  {| choiceIndex := JUndefined; manualScore := JUndefined |}.

(** [{ ...old, ...data }] *)
Definition spread (old : Answer) (data : Patch) : Answer :=
  {| choiceIndex := default (choiceIndex old) (patch_choiceIndex data);
     manualScore := default (manualScore old) (patch_manualScore data) |}.

(** [setAnswers((prev) => ({ ...prev, [qid]: { ...(prev[qid] || {}), ...data } }))] *)
Definition setAnswer (st : App) (qid : string) (data : Patch) : App :=
  set_answers st
    (<[qid := spread (default empty_answer (answers st !! qid)) data]> (answers st)).

(** [ans?.choiceIndex] *)
Definition chosen_of (ans : option Answer) : jsval :=
  match ans with Some a => choiceIndex a | None => JUndefined end.

(** [choose(idx)] of the [MCQBlock] of question [q]:
    [setAns({ choiceIndex: idx })]. *)
Definition choose (st : App) (q : Question) (idx : Z) : App :=
  setAnswer st (id q)
    {| patch_choiceIndex := Some (JNum idx); patch_manualScore := None |}.

(** The flags [MCQBlock] computes for the option of index [idx]. *)
Definition judged (ans : option Answer) : bool :=
  String.eqb (typeof (chosen_of ans)) "number".

Definition isChosen (ans : option Answer) (idx : Z) : bool :=
  strict_eq (chosen_of ans) (JNum idx).

Definition isCorrect (q : Question) (idx : Z) : bool :=
  strict_eq (correctIndex q) (JNum idx).

(** The option is drawn as the right one: [judged && isCorrect]. *)
Definition shown_correct (q : Question) (ans : option Answer) (idx : Z) : bool :=
  judged ans && isCorrect q idx.

(** The option is drawn as a wrong pick: [judged && isChosen && !isCorrect]. *)
Definition shown_wrong (q : Question) (ans : option Answer) (idx : Z) : bool :=
  judged ans && isChosen ans idx && negb (isCorrect q idx).

(** The scores [ManualBlock] offers:
    [q.type === "fill" ? [0, pts] : Array.from({ length: pts + 1 }, (_, i) => i)] *)
Definition manual_choices (q : Question) : list Z :=
  let pts := LEVEL_POINTS (level q) in
  if bool_decide (type q = fill) then [0; pts]
  else List.map Z.of_nat (seq 0 (Z.to_nat (pts + 1))).

(** A click on the score button [p] of the [ManualBlock] of question [q]:
    [setAns({ manualScore: p })]. *)
Definition grade (st : App) (q : Question) (p : Z) : App :=
  setAnswer st (id q)
    {| patch_choiceIndex := None; patch_manualScore := Some (JNum p) |}.

(** ** Sequences of clicks *)

Definition after_click (st : App) (c : Control) : App :=
  match click st c with
  | Returned (st', _) => st'
  | Threw _ => st
  end.

Definition after_clicks (st : App) (cs : list Control) : App :=
  fold_left after_click cs st.

(** What holds of every state the controls can reach. *)
Definition session_ok (st : App) : Prop :=
  caps_hold (questions st) (basket st)
  /\ NoDup (basket st)
  /\ (phase st <> pick -> basket st <> []).

(** The points the found questions of a basket are worth together. *)
Definition max_points (qs : list Question) (bk : list string) : Z :=
  foldr (fun i acc =>
           match find_question qs i with
           | Some q => LEVEL_POINTS (level q) + acc
           | None => acc
           end) 0 bk.

(** Every numeric manual score of a manually graded question lies between 0
    and the point value of the question. *)
Definition graded_in_range (qs : list Question) (ans_of : gmap string Answer) : Prop :=
  forall i q a n,
    find_question qs i = Some q -> type q <> mcq ->
    ans_of !! i = Some a -> manualScore a = JNum n ->
    0 <= n <= LEVEL_POINTS (level q).

(** ** The question bank editor: saveQuestion, deleteQuestion, addNewIp,
    saveSpecialHint *)

(** A question object as the editor holds and stores it.  [options] is
    absent on objects that never had any. *)
Record Item : Type := {
  item_id : string;
  item_ip : string;
  item_type : QType;
  item_level : Level;
  item_title : string;
  item_options : option (list string);
  item_correctIndex : jsval;
  item_reference : string
}.

(** The question the session logic sees in a stored object. *)
Definition as_question (it : Item) : Question :=
  {| id := item_id it; ip := item_ip it; type := item_type it;
     level := item_level it; correctIndex := item_correctIndex it |}.

Definition with_id (it : Item) (i : string) : Item :=
  {| item_id := i; item_ip := item_ip it; item_type := item_type it;
     item_level := item_level it; item_title := item_title it;
     item_options := item_options it; item_correctIndex := item_correctIndex it;
     item_reference := item_reference it |}.

Inductive AdminAlert : Type :=
| AlertFillIpTitle   (* "请填写 IP 与题目内容" *)
| AlertFillOptions   (* "请填写完整选项" *)
| AlertIpBlank       (* "IP 名称不能为空" *)
| AlertIpExists      (* "IP 名称已存在" *)
| AlertPickIp        (* "请先选择一个 IP 分类" *)
| AlertHintSaved     (* "特殊提示已保存" *)
| AlertPinWrong.     (* "PIN 不正确" *)

(** [!payload.options?.length || payload.options.some((o) => !o)] *)
Definition options_incomplete (opts : option (list string)) : bool :=
  match opts with
  | None => true
  | Some l => Nat.eqb (length l) 0 || existsb (fun o => String.eqb o "") l
  end.

(** [saveQuestion], run with the form [form]; [fresh] is the value [uid()]
    returns when it is called.  The result is the next question list, the
    next form ([None] for [null]) and the alert shown. *)
Definition saveQuestion (prev : list Item) (form : Item) (fresh : string)
  : list Item * option Item * option AdminAlert :=
  let payload := form in
  if String.eqb (item_ip payload) "" || String.eqb (item_title payload) ""
  then (prev, Some form, Some AlertFillIpTitle)
  else if bool_decide (item_type payload = mcq) && options_incomplete (item_options payload)
  then (prev, Some form, Some AlertFillOptions)
  else if negb (String.eqb (item_id payload) "")
  then (List.map (fun q => if String.eqb (item_id q) (item_id payload) then payload else q) prev,
        None, None)
  else (with_id payload fresh :: prev, None, None).

(** [deleteQuestion(id)]; [confirmed] is the answer to [window.confirm]. *)
Definition deleteQuestion (confirmed : bool) (prev : list Item) (i : string) : list Item :=
  if confirmed then List.filter (fun q => negb (String.eqb (item_id q) i)) prev
  else prev.

(** The own property names of [Object.prototype]: a read [o[k]] of a plain
    object that has no own property [k] finds these inherited members. *)
Definition Object_prototype_keys : list string :=
  [ "constructor"; "hasOwnProperty"; "isPrototypeOf"; "propertyIsEnumerable";
    "toLocaleString"; "toString"; "valueOf"; "__proto__";
    "__defineGetter__"; "__defineSetter__"; "__lookupGetter__"; "__lookupSetter__" ].

Definition is_proto_member (k : string) : bool :=
  existsb (fun x => String.eqb x k) Object_prototype_keys.

(** [!!hints?.[name]]: an empty text is falsy; without an own entry the
    read finds the members of [Object.prototype], which are truthy, and is
    undefined for every other name. *)
Definition has_hint (hints : gmap string string) (name : string) : bool :=
  match hints !! name with
  | Some text => negb (String.eqb text "")
  | None => is_proto_member name
  end.

(** [addNewIp]; [trim] is [String.prototype.trim].  The result is the next
    hint map, the next content of the input and the alert shown. *)
Definition addNewIp (trim : string -> string) (qs : list Item)
    (hints : gmap string string) (newIp : string)
  : gmap string string * string * option AdminAlert :=
  let name := trim newIp in
  if String.eqb name "" then (hints, newIp, Some AlertIpBlank)
  else
    let exists_ := existsb (fun q => String.eqb (item_ip q) name) qs || has_hint hints name in
    if exists_ then (hints, newIp, Some AlertIpExists)
    else (<[name := ""]> hints, "", None).

(** [saveSpecialHint], with the selected topic and the text of the input. *)
Definition saveSpecialHint (hints : gmap string string) (selected text : string)
  : gmap string string * option AdminAlert :=
  if String.eqb selected "" then (hints, Some AlertPickIp)
  else (<[selected := text]> hints, Some AlertHintSaved).

(** What [saveQuestion] checks before it stores an object: a topic, a
    title and, on a multiple-choice question, a non-empty list of non-empty
    options. *)
Definition item_valid (it : Item) : Prop :=
  item_ip it <> "" /\ item_title it <> ""
  /\ (item_type it = mcq ->
      exists l, item_options it = Some l /\ l <> [] /\ Forall (fun o => o <> "") l).

Definition sample_item : Item :=
  {| item_id := "q1"; item_ip := "X"; item_type := mcq; item_level := LvB;
     item_title := "t"; item_options := Some ["a"; "b"]; item_correctIndex := JNum 1;
     item_reference := "" |}.

(** ** The administrator PIN: getAdminPin, setAdminPin, tryAdmin

    [localStorage] is a map from keys to strings that accepts the write. *)

Definition LS_PIN : string := "ipquiz.admin.pin".

(** [localStorage.getItem(LS_PIN) || "1234"] *)
Definition getAdminPin (ls : gmap string string) : string :=
  match ls !! LS_PIN with
  | Some v => if String.eqb v "" then "1234" else v
  | None => "1234"
  end.

Definition setAdminPin (ls : gmap string string) (pin : string) : gmap string string :=
  <[LS_PIN := pin]> ls.

Record Login : Type := {
  adminMode : bool;
  pinInput : string
}.

Definition tryAdmin (ls : gmap string string) (lg : Login) : Login * option AdminAlert :=
  let pin := getAdminPin ls in
  if String.eqb (pinInput lg) pin
  then ({| adminMode := true; pinInput := "" |}, None)
  else (lg, Some AlertPinWrong).

(** ** The question store of dataSource.js: getQuestions, saveQuestions

    The module keeps a [cache] and talks to [localStorage] and to the
    network.  JSON values are kept abstract: the model only needs the
    operations the module applies to them.  What the outside world answers
    during one call is an argument of the call. *)

Record JsonOps (J : Type) : Type := {
  parse : string -> option J;       (* JSON.parse; [None] when it throws *)
  stringify : J -> string;          (* JSON.stringify *)
  nonempty_array : J -> bool;       (* Array.isArray(x) && x.length > 0 *)
  truthy_json : J -> bool;          (* the condition [x] of [if (x)], [x || y] *)
  empty_array : J                   (* [] *)
}.
Arguments parse {J} _ _.
Arguments stringify {J} _ _.
Arguments nonempty_array {J} _ _.
Arguments truthy_json {J} _ _.
Arguments empty_array {J} _.

(** The outcome of [fetch(url)] followed by [response.json()]. *)
Inductive Response (J : Type) : Type :=
| NetworkError            (* fetch rejects *)
| NotOk                   (* response.ok is false *)
| BadBody                 (* response.json() rejects *)
| Body (data : J).
Arguments NetworkError {J}.
Arguments NotOk {J}.
Arguments BadBody {J}.
Arguments Body {J} data.

Record DsEnv (J : Type) : Type := {
  isDev : bool;
  can_read : bool;            (* localStorage.getItem returns rather than throws *)
  can_write : bool;           (* setItem and removeItem return rather than throw *)
  public_file : Response J;   (* fetch("/questions.json") *)
  api_get : Response J;       (* fetch("/api/questions") *)
  bundled : J                 (* defaultQuestions *)
}.
Arguments isDev {J} _.
Arguments can_read {J} _.
Arguments can_write {J} _.
Arguments public_file {J} _.
Arguments api_get {J} _.
Arguments bundled {J} _.

Record DsState (J : Type) : Type := {
  cache : option J;                 (* [None] is [null] *)
  storage : gmap string string      (* localStorage *)
}.
Arguments cache {J} _.
Arguments storage {J} _.

Definition NEW_KEY : string := "questions".
Definition OLD_KEY : string := "ipquiz.questions.v1".

(** [try { localStorage.setItem(k, v) } catch {}] *)
Definition try_set {J : Type} (env : DsEnv J) (ls : gmap string string)
    (k v : string) : gmap string string :=
  if can_write env then <[k := v]> ls else ls.

(** [try { localStorage.removeItem(k) } catch {}] *)
Definition try_remove {J : Type} (env : DsEnv J) (ls : gmap string string)
    (k : string) : gmap string string :=
  if can_write env then delete k ls else ls.

(** A stored text that passes [if (localData)]. *)
Definition present (o : option string) : option string :=
  match o with
  | Some text => if String.eqb text "" then None else Some text
  | None => None
  end.

(** The block of [getQuestions] that reads [localStorage] in development:
    the new key first, then the old one.  The result is the storage it
    leaves and the array it returns from, if any. *)
Definition read_local {J : Type} (ops : JsonOps J) (env : DsEnv J)
    (ls : gmap string string) : gmap string string * option J :=
  if negb (can_read env) then (ls, None)      (* getItem throws: outer catch *)
  else
    let after_new :=
      match present (ls !! NEW_KEY) with
      | Some localData =>
          match parse ops localData with
          | Some parsed =>
              if nonempty_array ops parsed then (ls, Some parsed)
              else (try_remove env ls NEW_KEY, None)
          | None => (ls, None)
          end
      | None => (ls, None)
      end in
    match after_new with
    | (ls1, Some parsed) => (ls1, Some parsed)
    | (ls1, None) =>
        match present (ls1 !! OLD_KEY) with
        | Some oldData =>
            match parse ops oldData with
            | Some parsed =>
                if nonempty_array ops parsed
                then (try_set env ls1 NEW_KEY (stringify ops parsed), Some parsed)
                else (try_remove env ls1 OLD_KEY, None)
            | None => (ls1, None)
            end
        | None => (ls1, None)
        end
    end.

(** Storing [data] under both keys and in the cache, and returning it. *)
Definition adopt {J : Type} (ops : JsonOps J) (env : DsEnv J)
    (ls : gmap string string) (data : J) : DsState J * J :=
  ({| cache := Some data;
      storage := try_set env (try_set env ls NEW_KEY (stringify ops data))
                   OLD_KEY (stringify ops data) |},
   data).

(** [getQuestions()] past the test of the cache. *)
Definition load {J : Type} (ops : JsonOps J) (env : DsEnv J)
    (ls : gmap string string) : DsState J * J :=
  if isDev env then
    match read_local ops env ls with
    | (ls1, Some parsed) => ({| cache := Some parsed; storage := ls1 |}, parsed)
    | (ls1, None) =>
        match public_file env with
        | Body data => adopt ops env ls1 data
        | _ =>
            (* const data = defaultQuestions || []; *)
            adopt ops env ls1
              (if truthy_json ops (bundled env) then bundled env else empty_array ops)
        end
    end
  else
    match api_get env with
    | Body data => ({| cache := Some data; storage := ls |}, data)
    | _ => ({| cache := Some (empty_array ops); storage := ls |}, empty_array ops)
    end.

(** [getQuestions()]: the next state of the module and the value the
    promise resolves to. *)
Definition getQuestions {J : Type} (ops : JsonOps J) (env : DsEnv J)
    (st : DsState J) : DsState J * J :=
  match cache st with
  | Some c => if truthy_json ops c then (st, c)      (* if (cache) return cache; *)
              else load ops env (storage st)
  | None => load ops env (storage st)
  end.

(** [saveQuestions(newQuestions)]: the state it leaves, whether or not the
    request it sends in production succeeds. *)
Definition saveQuestions {J : Type} (ops : JsonOps J) (env : DsEnv J)
    (st : DsState J) (newQuestions : J) : DsState J :=
  if isDev env
  then {| cache := Some newQuestions;
          storage := try_set env
                       (try_set env (storage st) NEW_KEY (stringify ops newQuestions))
                       OLD_KEY (stringify ops newQuestions) |}
  else {| cache := Some newQuestions; storage := storage st |}.

(** The non-empty array a stored text holds, if it holds one. *)
Definition stored_array {J : Type} (ops : JsonOps J) (o : option string) : option J :=
  match present o with
  | Some text =>
      match parse ops text with
      | Some v => if nonempty_array ops v then Some v else None
      | None => None
      end
  | None => None
  end.

(** What a development load falls back to when the storage holds nothing
    usable: the public file if it can be fetched, else the bundled
    questions, else the empty array. *)
Definition fallback {J : Type} (ops : JsonOps J) (env : DsEnv J) : J :=
  match public_file env with
  | Body data => data
  | _ => if truthy_json ops (bundled env) then bundled env else empty_array ops
  end.

(** JSON values for examples: a list of numbers, written in decimal only
    for the two lists the examples store. *)
Definition sample_ops : JsonOps (list nat) :=
  {| parse := fun text => if String.eqb text "[]" then Some []
                          else if String.eqb text "[7]" then Some [7%nat]
                          else None;
     stringify := fun v => match v with [] => "[]" | _ => "[7]" end;
     nonempty_array := fun v => match v with [] => false | _ => true end;
     truthy_json := fun _ => true;
     empty_array := [] |}.

Definition sample_env (dev : bool) (net : Response (list nat)) : DsEnv (list nat) :=
  {| isDev := dev; can_read := true; can_write := true;
     public_file := net; api_get := net; bundled := [7%nat] |}.

Definition sample_store : DsState (list nat) :=
  {| cache := None; storage := ∅ |}.

(** A page load: the module starts with an empty cache over the storage
    the browser kept. *)
Definition reload {J : Type} (st : DsState J) : DsState J :=
  {| cache := None; storage := storage st |}.

(** ** The multi-select version of the component

    The repository holds a later version of the same component, in which a
    multiple-choice question carries an array [correctIndices], an answer
    an array [chosenIndices], and [toggleBasket] tests the phase and the
    result of its lookup.  Its selection and scoring are modelled here. *)

Module Multi.

Record Question : Type := {
  id : string;
  ip : string;
  type : QType;
  level : Level;
  correctIndices : option (list Z)     (* an array, or [None] for undefined *)
}.

Record Answer : Type := {
  chosenIndices : option (list Z);     (* an array, or [None] for undefined *)
  manualScore : jsval
}.

Record App : Type := {
  tab : Tab;
  questions : list Question;
  selectedIP : string;
  basket : list string;
  phase : Phase;
  answers : gmap string Answer
}.

Definition Effect : Type := (App * option Alert)%type.

Definition set_basket (st : App) (bk : list string) : App :=
  {| tab := tab st; questions := questions st; selectedIP := selectedIP st;
     basket := bk; phase := phase st; answers := answers st |}.

(** [questions.find((x) => x.id === id)] *)
Definition find_question (qs : list Question) (i : string) : option Question :=
  List.find (fun x => String.eqb (id x) i) qs.

(** One turn of the loop of [perIPCounts]. *)
Definition count_step (qs : list Question) (m : gmap string Z) (i : string)
  : completion (gmap string Z) :=
  let q := find_question qs i in
  if negb (truthy q) then Returned m                       (* if (!q) continue; *)
  else
    let! k := prop q ip in
    Returned (<[k := or0 (m !! k) + 1]> m).

Fixpoint count_loop (qs : list Question) (m : gmap string Z) (bk : list string)
  : completion (gmap string Z) :=
  match bk with
  | [] => Returned m
  | i :: rest => let! m' := count_step qs m i in count_loop qs m' rest
  end.

Definition perIPCounts (qs : list Question) (bk : list string)
  : completion (gmap string Z) :=
  count_loop qs ∅ bk.

(** [toggleBasket(id)].  For a topic that names a member of
    [Object.prototype] the read [perIPCounts[q.ip]] does not give a number
    below 2, so [ipOk] is false. *)
Definition toggleBasket (st : App) (i : string) : completion Effect :=
  let! counts := perIPCounts (questions st) (basket st) in
  if negb (bool_decide (phase st = pick)) then Returned (st, None)
  else if inBasket (basket st) i
  then Returned (set_basket st (filter (fun x => x ≠ i) (basket st)), None)
  else
    let q := find_question (questions st) i in
    if negb (truthy q) then Returned (st, None)            (* if (!q) return; *)
    else
      let totalOk := Z.of_nat (length (basket st)) <? 5 in
      let! k := prop q ip in
      let ipOk := negb (is_proto_member k) && (or0 (counts !! k) <? 2) in
      if negb totalOk then Returned (st, Some AlertTotalCap)
      else if negb ipOk then Returned (st, Some AlertIPCap)
      else Returned (set_basket st (basket st ++ [i]), None).

(** [new Set(l)]: the distinct values of [l], in order of first occurrence;
    [s.has(x)] and [s.size]. *)
Definition js_set (l : list Z) : list Z := remove_dups l.

Definition has (s : list Z) (x : Z) : bool := bool_decide (x ∈ s).

Definition size_of (s : list Z) : nat := length s.

(** [a || []] for an array or undefined. *)
Definition or_empty (a : option (list Z)) : list Z := default [] a.

(** The test of the scorer on a multiple-choice question, given the two
    arrays: every correct index is chosen, every chosen index is correct,
    and the two sets have the same size. *)
Definition exact_match (correct chosen : option (list Z)) : bool :=
  let correctIndicesSet := js_set (or_empty correct) in
  let chosenIndicesSet := js_set (or_empty chosen) in
  let allCorrectChosen := forallb (fun cIdx => has chosenIndicesSet cIdx) correctIndicesSet in
  let noIncorrectChosen := forallb (fun cIdx => has correctIndicesSet cIdx) chosenIndicesSet in
  allCorrectChosen && noIncorrectChosen
  && Nat.eqb (size_of correctIndicesSet) (size_of chosenIndicesSet).

(** One turn of the loop of [scoreSummary]. *)
Definition score_step (qs : list Question) (ans_of : gmap string Answer)
    (acc : Summary) (i : string) : completion Summary :=
  let q := find_question qs i in
  if negb (truthy q) then Returned acc                     (* if (!q) continue; *)
  else
    let ans := ans_of !! i in
    let! ty := prop q type in
    let! gained :=
      if bool_decide (ty = mcq) then
        (* if (ans && ans.chosenIndices) { ... } *)
        let! answered := and_also (truthy ans)
                           (let! c := prop ans chosenIndices in Returned (truthy c)) in
        if answered then
          let! correct := prop q correctIndices in
          let! chosen := prop ans chosenIndices in
          if exact_match correct chosen
          then let! lv := prop q level in Returned (LEVEL_POINTS lv)
          else Returned 0
        else Returned 0
      else
        (* if (ans && typeof ans.manualScore === "number") gained = ans.manualScore; *)
        let! isnum := and_also (truthy ans)
                        (let! m := prop ans manualScore in
                         Returned (String.eqb (typeof m) "number")) in
        if isnum then let! m := prop ans manualScore in Returned (number_of m)
        else Returned 0
    in
    let! k := prop q ip in
    let! lv := prop q level in
    Returned {| total := total acc + gained;
                byIP := <[k := or0 (byIP acc !! k) + gained]> (byIP acc);
                (* byLevel[q.level] = (byLevel[q.level] || 0) + gained *)
                byLevel := <[level_key lv := or0 (byLevel acc !! level_key lv) + gained]>
                             (byLevel acc) |}.

Fixpoint score_loop (qs : list Question) (ans_of : gmap string Answer)
    (acc : Summary) (bk : list string) : completion Summary :=
  match bk with
  | [] => Returned acc
  | i :: rest =>
      let! acc' := score_step qs ans_of acc i in score_loop qs ans_of acc' rest
  end.

Definition scoreSummary (qs : list Question) (bk : list string)
    (ans_of : gmap string Answer) : completion Summary :=
  score_loop qs ans_of summary0 bk.

(** The set of chosen indices an answer record stands for: none without a
    record or without the array. *)
Definition chosen_set (a : option Answer) : gset Z :=
  match a with
  | Some r => list_to_set (or_empty (chosenIndices r))
  | None => ∅
  end.

(** Sample data: a question of level b with the correct indices 0 and 2. *)
Definition sample_two : Question :=
  {| id := "m1"; ip := "X"; type := mcq; level := LvB; correctIndices := Some [0; 2] |}.

Definition chose (l : list Z) : gmap string Answer :=
  {["m1" := {| chosenIndices := Some l; manualScore := JUndefined |}]}.

Definition sample_app (bk : list string) (p : Phase) : App :=
  {| tab := quiz; questions := [sample_two]; selectedIP := ""; basket := bk;
     phase := p; answers := ∅ |}.

End Multi.

(** The set of chosen indices an answer record of the single-index versions
    stands for: the recorded index, if a number is recorded. *)
Definition chosen_singleton (a : option Answer) : gset Z :=
  match a with
  | Some r => match choiceIndex r with JNum n => {[n]} | _ => ∅ end
  | None => ∅
  end.

(** ** All the buttons of the sidebar and of the question cards

    Besides the controls above, a card carries outside the pick phase the
    option buttons of [MCQBlock] or the score buttons of [ManualBlock].  A
    card is named by its position among the visible questions.  The options
    of a question are not modelled: every index stands for an option
    button. *)
Inductive Button : Type :=
| Sidebar (c : Control)
| OptionBtn (card : nat) (idx : Z)     (* onClick={() => choose(idx)} *)
| ScoreBtn (card : nat) (p : Z).       (* onClick={() => setAns({ manualScore: p })} *)

(** Whether a button is rendered and enabled. *)
Definition rendered (st : App) (b : Button) : bool :=
  match b with
  | Sidebar c => usable st c
  | OptionBtn card idx =>
      match nth_error (visibleQuestions st) card with
      | Some q => bool_decide (tab st = quiz) && bool_decide (type q = mcq)
                  && negb (bool_decide (phase st = pick))
      | None => false
      end
  | ScoreBtn card p =>
      match nth_error (visibleQuestions st) card with
      | Some q => bool_decide (tab st = quiz)
                  && negb (bool_decide (phase st = pick))
                  && negb (bool_decide (type q = mcq))
                  && existsb (Z.eqb p) (manual_choices q)
      | None => false
      end
  end.

(** A press on a button. *)
Definition press (st : App) (b : Button) : completion Effect :=
  if rendered st b then
    match b with
    | Sidebar c => handler st c
    | OptionBtn card idx =>
        match nth_error (visibleQuestions st) card with
        | Some q => Returned (choose st q idx, None)
        | None => Returned (st, None)
        end
    | ScoreBtn card p =>
        match nth_error (visibleQuestions st) card with
        | Some q => Returned (grade st q p, None)
        | None => Returned (st, None)
        end
    end
  else Returned (st, None).

(** ** Basic facts *)

Lemma or0_some (v : Z) : or0 (Some v) = v.
Proof. unfold or0. destruct (Z.eqb_spec v 0); congruence. Qed.

Lemma or0_none : or0 None = 0.
Proof. reflexivity. Qed.

Lemma typeof_number (v : jsval) : typeof v = "number" <-> exists n, v = JNum n.
Proof.
  split.
  - destruct v; simpl; try discriminate. eauto.
  - intros [n ->]. reflexivity.
Qed.

Lemma strict_eq_num (v : jsval) (k : Z) : strict_eq v (JNum k) = true <-> v = JNum k.
Proof.
  destruct v; simpl; try (split; [discriminate | congruence]).
  rewrite Z.eqb_eq. split; congruence.
Qed.

Lemma inBasket_true (bk : list string) (i : string) : inBasket bk i = true <-> i ∈ bk.
Proof.
  unfold inBasket. rewrite existsb_exists. split.
  - intros (x & Hx & Heq). apply String.eqb_eq in Heq. subst. by apply list_elem_of_In.
  - intros Hin. exists i. split; [by apply list_elem_of_In | apply String.eqb_refl].
Qed.

Lemma find_question_id (qs : list Question) (i : string) (q : Question) :
  find_question qs i = Some q -> id q = i /\ In q qs.
Proof.
  unfold find_question. intros H. apply find_some in H as [Hin Heq].
  apply String.eqb_eq in Heq. by split.
Qed.

(** ** Counting per topic *)

Section Counting.
Variable qs : list Question.

Lemma count_topic_nil T : count_topic qs [] T = 0%nat.
Proof. reflexivity. Qed.

Lemma count_topic_cons i bk T :
  count_topic qs (i :: bk) T =
  ((if decide (topic_of qs i = Some T) then 1 else 0) + count_topic qs bk T)%nat.
Proof.
  unfold count_topic. rewrite filter_cons. by case_decide.
Qed.

Lemma count_topic_app bk1 bk2 T :
  count_topic qs (bk1 ++ bk2) T = (count_topic qs bk1 T + count_topic qs bk2 T)%nat.
Proof. unfold count_topic. by rewrite filter_app, length_app. Qed.

Lemma count_topic_filter_le (P : string -> Prop) `{!forall x, Decision (P x)} bk T :
  (count_topic qs (filter P bk) T <= count_topic qs bk T)%nat.
Proof.
  induction bk as [|x bk IH]; [done|].
  rewrite filter_cons. case_decide.
  - rewrite !count_topic_cons. lia.
  - rewrite count_topic_cons. lia.
Qed.

(** The loop of [perIPCounts] never throws, and adds to each entry the
    number of basket members of that topic. *)
Lemma count_loop_spec bk : forall m,
  exists m', count_loop qs m bk = Returned m' /\
    forall T, or0 (m' !! T) = or0 (m !! T) + Z.of_nat (count_topic qs bk T).
Proof.
  induction bk as [|i bk IH]; intros m; simpl.
  - exists m. split; [done|]. intros T. rewrite count_topic_nil. lia.
  - unfold count_step. destruct (find_question qs i) as [q|] eqn:Hq; simpl.
    + destruct (IH (<[ip q := or0 (m !! ip q) + 1]> m)) as (m' & Hloop & Hm').
      exists m'. split; [done|]. intros T. rewrite Hm', count_topic_cons.
      unfold topic_of. rewrite Hq. simpl.
      destruct (decide (ip q = T)) as [->|Hne].
      * rewrite lookup_insert_eq, or0_some.
        destruct (decide (Some T = Some T)); [lia | congruence].
      * rewrite lookup_insert_ne by done.
        destruct (decide (Some (ip q) = Some T)); [congruence | lia].
    + destruct (IH m) as (m' & Hloop & Hm').
      exists m'. split; [done|]. intros T. rewrite Hm', count_topic_cons.
      unfold topic_of. rewrite Hq. simpl.
      destruct (decide (None = Some T)); [congruence | lia].
Qed.

Lemma perIPCounts_spec bk :
  exists m, perIPCounts qs bk = Returned m /\
    forall T, or0 (m !! T) = Z.of_nat (count_topic qs bk T).
Proof.
  destruct (count_loop_spec bk ∅) as (m & Hm & Hc).
  exists m. split; [done|]. intros T. rewrite Hc, lookup_empty, or0_none. lia.
Qed.

Lemma count_loop_app bk1 bk2 m :
  count_loop qs m (bk1 ++ bk2) =
  (let! m' := count_loop qs m bk1 in count_loop qs m' bk2).
Proof.
  revert m. induction bk1 as [|i bk1 IH]; intros m; simpl; [done|].
  destruct (count_step qs m i); simpl; [apply IH | done].
Qed.
End Counting.

(** ** The selection handler *)

Lemma after_toggle_questions (st : App) (i : string) :
  questions (after_toggle st i) = questions st.
Proof.
  unfold after_toggle, toggleBasket.
  destruct (perIPCounts_spec (questions st) (basket st)) as (m & -> & _). simpl.
  destruct (inBasket (basket st) i); [done|].
  destruct (find_question (questions st) i); simpl; [|done].
  destruct (negb _); [done|]. by destruct (negb _).
Qed.

Lemma after_toggle_caps (st : App) (i : string) :
  caps_hold (questions st) (basket st) ->
  caps_hold (questions st) (basket (after_toggle st i)).
Proof.
  intros [Hlen Htopic]. unfold after_toggle, toggleBasket.
  destruct (perIPCounts_spec (questions st) (basket st)) as (m & -> & Hm). simpl.
  destruct (inBasket (basket st) i) eqn:Hin; simpl.
  { split.
    - etrans; [apply length_filter | done].
    - intros T. etrans; [apply count_topic_filter_le; apply _ | done]. }
  destruct (find_question (questions st) i) as [q|] eqn:Hq; simpl; [|done].
  destruct (Z.ltb_spec (Z.of_nat (length (basket st))) 5) as [Hlt|]; simpl; [|done].
  rewrite orb_false_r, Hm.
  destruct (Z.ltb_spec (Z.of_nat (count_topic (questions st) (basket st) (ip q))) 2)
    as [Hip|]; simpl; [|done].
  split.
  - rewrite length_app. simpl. lia.
  - intros T. rewrite count_topic_app, count_topic_cons, count_topic_nil.
    unfold topic_of. rewrite Hq. simpl. case_decide as HT.
    + assert (T = ip q) as -> by congruence. lia.
    + specialize (Htopic T). lia.
Qed.

Lemma after_toggles_caps (ids : list string) : forall st,
  caps_hold (questions st) (basket st) ->
  caps_hold (questions (after_toggles st ids)) (basket (after_toggles st ids)).
Proof.
  induction ids as [|i ids IH]; intros st Hcaps; simpl; [done|].
  apply IH. rewrite after_toggle_questions. by apply after_toggle_caps.
Qed.

(** C2. Starting from the empty basket, after every sequence of calls of
    [toggleBasket] (each adding, removing, being rejected with an alert, or
    throwing) the basket holds at most 5 ids and at most 2 ids of any one
    topic.  The sequence is arbitrary, so the bound holds after each call of
    it. *)
Theorem toggle_keeps_caps
    (t : Tab) (qs : list Question) (sel : string) (p : Phase)
    (ans_of : gmap string Answer) (ids : list string) (T : string) :
  let st := after_toggles
              {| tab := t; questions := qs; selectedIP := sel; basket := [];
                 phase := p; answers := ans_of |} ids in
  (length (basket st) <= 5)%nat /\ (count_topic (questions st) (basket st) T <= 2)%nat.
Proof.
  intros st.
  assert (Hcaps : caps_hold (questions st) (basket st)).
  { apply after_toggles_caps. simpl. split; [simpl; lia|].
    intros T'. rewrite count_topic_nil. lia. }
  destruct Hcaps as [Hlen Htopic]. split; [done | apply Htopic].
Qed.

(** ** The phase handlers *)

Lemma toggleBasket_phase (st st' : App) (i : string) (msg : option Alert) :
  toggleBasket st i = Returned (st', msg) -> phase st' = phase st.
Proof.
  unfold toggleBasket.
  destruct (perIPCounts (questions st) (basket st)); simpl; [|done].
  destruct (inBasket (basket st) i); [by intros [= <- _]|].
  destruct (find_question (questions st) i); simpl; [|done].
  destruct (negb _); [by intros [= <- _]|].
  destruct (negb _); by intros [= <- _].
Qed.

(** Through the controls the component renders, the phase changes only by
    the designated control of the current phase: start from
    pick (enabled only there, and only with a non-empty basket), reveal from
    running, finish from confirm; reset leads to pick from any phase; a
    toggle never changes the phase. *)
Lemma clicks_phase_guarded (st st' : App) (c : Control) (msg : option Alert) :
  click st c = Returned (st', msg) ->
  phase st' <> phase st ->
  designated (phase st) c (phase st').
Proof.
  unfold click, designated. intros Hrun Hchange.
  destruct c as [| | | |i]; simpl in Hrun.
  - destruct (Nat.eqb _ 0) eqn:Hlen; simpl in Hrun; [by injection Hrun as <- _|].
    destruct (bool_decide_reflect (phase st = pick)) as [Hp|]; simpl in Hrun;
      [|by injection Hrun as <- _].
    unfold startQuiz in Hrun. rewrite Hlen in Hrun. injection Hrun as <- _.
    right; left. by rewrite Hp.
  - injection Hrun as <- _. by left.
  - destruct (bool_decide_reflect (phase st = running)) as [Hp|];
      injection Hrun as <- _; [|done].
    right; right; left. by rewrite Hp.
  - destruct (bool_decide_reflect (phase st = confirm)) as [Hp|];
      injection Hrun as <- _; [|done].
    right; right; right. by rewrite Hp.
  - destruct (_ && _).
    + by apply toggleBasket_phase in Hrun.
    + by injection Hrun as <- _.
Qed.

(** C5. With an empty basket [startQuiz] alerts and leaves the whole state
    as it was; with a non-empty basket in the pick phase it shows no alert
    and the next phase is running, basket and answers being kept. *)
Theorem startQuiz_spec (st : App) :
  (basket st = [] -> startQuiz st = (st, Some AlertEmpty))
  /\ (basket st <> [] -> phase st = pick ->
      exists st', startQuiz st = (st', None) /\ phase st' = running
                  /\ basket st' = basket st /\ answers st' = answers st).
Proof.
  unfold startQuiz. split.
  - intros ->. reflexivity.
  - intros Hne _. destruct (basket st) as [|i bk] eqn:Hbk; [done|]. simpl.
    eexists. split; [reflexivity|]. simpl. by rewrite Hbk.
Qed.

Lemma startQuiz_spec_witness :
  (basket (sample_state [] pick) = []
   /\ startQuiz (sample_state [] pick) = (sample_state [] pick, Some AlertEmpty))
  /\ (basket (sample_state ["q1"] pick) <> []
      /\ phase (sample_state ["q1"] pick) = pick
      /\ exists st', startQuiz (sample_state ["q1"] pick) = (st', None)
                     /\ phase st' = running /\ basket st' = ["q1"]
                     /\ answers st' = ∅).
Proof.
  split.
  - split; [reflexivity|].
    apply (proj1 (startQuiz_spec (sample_state [] pick))). reflexivity.
  - split; [simpl; discriminate|]. split; [reflexivity|].
    apply (proj2 (startQuiz_spec (sample_state ["q1"] pick))).
    + simpl. discriminate.
    + reflexivity.
Defined.

(** C8. [resetAll], from any state, empties the basket, clears the answer
    records and sets the phase to pick (it also returns to the welcome tab
    and clears the selected topic), without an alert. *)
Theorem resetAll_spec (st : App) :
  exists st', resetAll st = (st', None)
    /\ basket st' = [] /\ answers st' = ∅ /\ phase st' = pick
    /\ tab st' = welcome /\ selectedIP st' = "" /\ questions st' = questions st.
Proof. unfold resetAll. eexists. split; [reflexivity|]. by repeat split. Qed.

(** ** The scoring loop *)

Section Scoring.
Variable qs : list Question.
Variable ans_of : gmap string Answer.

Lemma score_step_absent acc i :
  find_question qs i = None -> score_step qs ans_of acc i = Returned acc.
Proof. unfold score_step. by intros ->. Qed.

Lemma score_step_found acc i q :
  find_question qs i = Some q ->
  score_step qs ans_of acc i = Returned (credit acc q (gain q (ans_of !! i))).
Proof.
  unfold score_step, gain. intros ->. simpl.
  destruct (type q); simpl;
    (destruct (ans_of !! i) as [r|]; simpl; [|reflexivity]).
  - by destruct (strict_eq _ _).
  - by destruct (manualScore r).
  - by destruct (manualScore r).
  - by destruct (manualScore r).
  - by destruct (manualScore r).
Qed.

Lemma score_step_returns acc i : exists r, score_step qs ans_of acc i = Returned r.
Proof.
  destruct (find_question qs i) as [q|] eqn:Hq.
  - rewrite (score_step_found _ _ _ Hq). eauto.
  - rewrite (score_step_absent _ _ Hq). eauto.
Qed.

Lemma score_loop_app bk1 bk2 acc :
  score_loop qs ans_of acc (bk1 ++ bk2) =
  (let! acc' := score_loop qs ans_of acc bk1 in score_loop qs ans_of acc' bk2).
Proof.
  revert acc. induction bk1 as [|i bk1 IH]; intros acc; simpl; [done|].
  destruct (score_step qs ans_of acc i); simpl; [apply IH | done].
Qed.

(** A property kept by every credit is kept by the loop, which returns. *)
Lemma score_loop_invariant (P : Summary -> Prop) :
  (forall acc q g, P acc -> P (credit acc q g)) ->
  forall bk acc, P acc ->
    exists r, score_loop qs ans_of acc bk = Returned r /\ P r.
Proof.
  intros Hstep. induction bk as [|i bk IH]; intros acc Hacc; simpl; [eauto|].
  destruct (find_question qs i) as [q|] eqn:Hq.
  - rewrite (score_step_found _ _ _ Hq). simpl. apply IH, Hstep, Hacc.
  - rewrite (score_step_absent _ _ Hq). simpl. by apply IH.
Qed.

Lemma score_loop_returns bk acc :
  exists r, score_loop qs ans_of acc bk = Returned r.
Proof.
  destruct (score_loop_invariant (fun _ => True) (fun _ _ _ _ => I) bk acc I)
    as (r & Hr & _).
  eauto.
Qed.
End Scoring.

(** ** Sums of tallies *)

Lemma sum_values_empty : sum_values ∅ = 0.
Proof. unfold sum_values. by rewrite map_fold_empty. Qed.

Lemma sum_values_insert_fresh (m : gmap string Z) (k : string) (v : Z) :
  m !! k = None -> sum_values (<[k := v]> m) = v + sum_values m.
Proof.
  intros Hk. unfold sum_values. rewrite map_fold_insert_L; [done| |done].
  intros. lia.
Qed.

Lemma sum_values_delete (m : gmap string Z) (k : string) (x : Z) :
  m !! k = Some x -> sum_values m = x + sum_values (delete k m).
Proof.
  intros Hk. unfold sum_values. rewrite (map_fold_delete_L _ _ k x m); [done| |done].
  intros. lia.
Qed.

Lemma sum_values_insert (m : gmap string Z) (k : string) (v : Z) :
  sum_values (<[k := v]> m) = sum_values m - or0 (m !! k) + v.
Proof.
  rewrite <- insert_delete_eq.
  rewrite sum_values_insert_fresh by apply lookup_delete_eq.
  destruct (m !! k) as [x|] eqn:Hk.
  - rewrite (sum_values_delete m k x Hk), or0_some. lia.
  - rewrite delete_id by done. rewrite or0_none. lia.
Qed.

Lemma sum_values_alter (m : gmap string Z) (k : string) (g : Z) :
  is_Some (m !! k) ->
  sum_values (alter (fun v => v + g) k m) = sum_values m + g.
Proof.
  intros [x Hk].
  assert (Halter : alter (fun v => v + g) k m = <[k := x + g]> m).
  { apply map_eq. intros j. destruct (decide (k = j)) as [<-|Hne].
    - by rewrite lookup_alter_eq, lookup_insert_eq, Hk.
    - by rewrite lookup_alter_ne, lookup_insert_ne. }
  rewrite Halter, sum_values_insert, Hk, or0_some. lia.
Qed.

Lemma summary0_levels (l : Level) : is_Some (byLevel summary0 !! level_key l).
Proof. destruct l; simpl; simplify_map_eq; eauto. Qed.

Lemma summary0_consistent : consistent summary0.
Proof.
  split; [|split].
  - simpl. by rewrite sum_values_empty.
  - simpl. rewrite !sum_values_insert. simplify_map_eq.
    rewrite sum_values_empty. reflexivity.
  - apply summary0_levels.
Qed.

Lemma credit_levels (acc : Summary) (q : Question) (g : Z) :
  (forall l : Level, is_Some (byLevel acc !! level_key l)) ->
  forall l : Level, is_Some (byLevel (credit acc q g) !! level_key l).
Proof.
  intros Hacc l. simpl. rewrite lookup_alter.
  destruct (decide (level_key (level q) = level_key l)); [|apply Hacc].
  destruct (Hacc (level q)) as [x ->]. simpl. eauto.
Qed.

Lemma credit_consistent (acc : Summary) (q : Question) (g : Z) :
  consistent acc -> consistent (credit acc q g).
Proof.
  intros (Hip & Hlv & Hkeys). split; [|split].
  - simpl. rewrite sum_values_insert.
    destruct (byIP acc !! ip q) as [x|]; rewrite ?or0_some, ?or0_none; lia.
  - simpl. rewrite sum_values_alter by apply Hkeys. lia.
  - by apply credit_levels.
Qed.

(** ** Properties of the score summary *)

(** C9. Whatever the basket, the questions and the answers, the summary is
    produced and its [byLevel] has an entry for each of the keys a, b, c
    and s. *)
Theorem byLevel_has_four_entries
    (qs : list Question) (bk : list string) (ans_of : gmap string Answer) :
  exists r, scoreSummary qs bk ans_of = Returned r
    /\ is_Some (byLevel r !! "a") /\ is_Some (byLevel r !! "b")
    /\ is_Some (byLevel r !! "c") /\ is_Some (byLevel r !! "s").
Proof.
  destruct (score_loop_invariant qs ans_of
              (fun r => forall l : Level, is_Some (byLevel r !! level_key l))
              credit_levels bk summary0 summary0_levels) as (r & Hr & Hkeys).
  exists r. split; [exact Hr|].
  split; [apply (Hkeys LvA)|]. split; [apply (Hkeys LvB)|].
  split; [apply (Hkeys LvC) | apply (Hkeys LvS)].
Qed.

(** C10. The summary is produced and its total equals the sum of the values
    of [byIP] and also the sum of the values of [byLevel]. *)
Theorem scoreSummary_tallies_agree
    (qs : list Question) (bk : list string) (ans_of : gmap string Answer) :
  exists r, scoreSummary qs bk ans_of = Returned r
    /\ total r = sum_values (byIP r)
    /\ total r = sum_values (byLevel r).
Proof.
  destruct (score_loop_invariant qs ans_of consistent credit_consistent
              bk summary0 summary0_consistent) as (r & Hr & Hip & Hlv & _).
  by exists r.
Qed.

(** C6. A basket id whose question is absent changes neither the score
    summary nor the per-topic counts: both are those of the basket without
    it, and both are produced without a throw. *)
Theorem absent_question_is_skipped
    (qs : list Question) (ans_of : gmap string Answer)
    (bk1 bk2 : list string) (i : string) :
  find_question qs i = None ->
  (exists r, scoreSummary qs (bk1 ++ i :: bk2) ans_of = Returned r
             /\ scoreSummary qs (bk1 ++ bk2) ans_of = Returned r)
  /\ (exists m, perIPCounts qs (bk1 ++ i :: bk2) = Returned m
                /\ perIPCounts qs (bk1 ++ bk2) = Returned m
                /\ forall T, or0 (m !! T) = Z.of_nat (count_topic qs (bk1 ++ bk2) T)).
Proof.
  intros Hq. split.
  - destruct (score_loop_returns qs ans_of (bk1 ++ bk2) summary0) as (r & Hr).
    exists r. split; [|exact Hr].
    unfold scoreSummary. rewrite score_loop_app in Hr |- *. simpl.
    destruct (score_loop qs ans_of summary0 bk1); simpl in *; [|done].
    by rewrite (score_step_absent _ _ _ _ Hq).
  - destruct (perIPCounts_spec qs (bk1 ++ bk2)) as (m & Hm & Hcount).
    exists m. split; [|by split].
    unfold perIPCounts in *. rewrite count_loop_app in Hm |- *. simpl.
    destruct (count_loop qs ∅ bk1); simpl in *; [|done].
    unfold count_step. by rewrite Hq.
Qed.

Lemma absent_question_is_skipped_witness :
  find_question [sample_mcq] "gone" = None /\
  (exists r, scoreSummary [sample_mcq] (["q1"] ++ "gone" :: ["q1"])
               {["q1" := answer_choice (JNum 1)]} = Returned r
             /\ scoreSummary [sample_mcq] (["q1"] ++ ["q1"])
                  {["q1" := answer_choice (JNum 1)]} = Returned r)
  /\ (exists m, perIPCounts [sample_mcq] (["q1"] ++ "gone" :: ["q1"]) = Returned m
                /\ perIPCounts [sample_mcq] (["q1"] ++ ["q1"]) = Returned m
                /\ forall T, or0 (m !! T)
                             = Z.of_nat (count_topic [sample_mcq] (["q1"] ++ ["q1"]) T)).
Proof.
  split; [reflexivity|].
  apply (absent_question_is_skipped [sample_mcq]
           {["q1" := answer_choice (JNum 1)]} ["q1"] ["q1"] "gone").
  reflexivity.
Defined.

(** C7. A found question that is not multiple-choice gains the recorded
    [manualScore] when it is a number, and nothing when there is no answer
    record or the field is not a number; the gain goes to the total and to
    the entries of its topic and level.  The summary is always produced.
    A short-answer question of level s with [manualScore] 3 yields total 3
    and 3 under s. *)
Theorem manual_score_passthrough :
  (forall qs ans_of acc i q,
     find_question qs i = Some q -> type q <> mcq ->
     exists r g, score_step qs ans_of acc i = Returned r
       /\ total r = total acc + g
       /\ byIP r !! ip q = Some (or0 (byIP acc !! ip q) + g)
       /\ byLevel r !! level_key (level q)
          = (fun v => v + g) <$> byLevel acc !! level_key (level q)
       /\ (forall a n, ans_of !! i = Some a -> manualScore a = JNum n -> g = n)
       /\ (ans_of !! i = None -> g = 0)
       /\ (forall a, ans_of !! i = Some a ->
                     typeof (manualScore a) <> "number" -> g = 0))
  /\ (forall qs bk ans_of, exists r, scoreSummary qs bk ans_of = Returned r)
  /\ (exists r, scoreSummary [sample_short] ["q2"]
                  {["q2" := answer_manual (JNum 3)]} = Returned r
                /\ total r = 3 /\ byLevel r !! "s" = Some 3)
  /\ (exists r, scoreSummary [sample_short] ["q2"] ∅ = Returned r
                /\ total r = 0 /\ byLevel r !! "s" = Some 0).
Proof.
  split; [|split; [|split]].
  - intros qs ans_of acc i q Hq Hty.
    exists (credit acc q (gain q (ans_of !! i))), (gain q (ans_of !! i)).
    split; [by apply score_step_found|].
    split; [done|]. split; [simpl; by rewrite lookup_insert_eq|].
    split; [simpl; by rewrite lookup_alter_eq|].
    unfold gain. destruct (type q); try done.
    all: split; [by intros a n -> ->|]; split; [by intros ->|].
    all: intros a -> Hnum; destruct (manualScore a); simpl in Hnum; done.
  - intros qs bk ans_of. apply score_loop_returns.
  - eexists. split; [vm_compute; reflexivity|]. split; reflexivity.
  - eexists. split; [vm_compute; reflexivity|]. split; reflexivity.
Qed.

Lemma manual_score_passthrough_witness :
  find_question [sample_short] "q2" = Some sample_short /\
  type sample_short <> mcq /\
  exists r g,
    score_step [sample_short] {["q2" := answer_manual (JNum 3)]} summary0 "q2"
      = Returned r
    /\ total r = total summary0 + g
    /\ (forall a n, ({["q2" := answer_manual (JNum 3)]} : gmap string Answer) !! "q2" = Some a ->
                    manualScore a = JNum n -> g = n).
Proof.
  split; [reflexivity|]. split; [discriminate|].
  destruct (proj1 manual_score_passthrough
              [sample_short] {["q2" := answer_manual (JNum 3)]} summary0 "q2"
              sample_short)
    as (r & g & Hr & Htotal & _ & _ & Hnum & _).
  - reflexivity.
  - simpl. discriminate.
  - exists r, g. split; [exact Hr|]. split; [exact Htotal | exact Hnum].
Defined.

(** In the single-index versions a found multiple-choice question gains its full point
    value exactly when an answer record exists whose [choiceIndex] is
    strictly equal to the question's [correctIndex], and gains 0 otherwise;
    the gain goes to the total and to the entry of its topic. *)
Lemma mcq_award_single_index
    (qs : list Question) (ans_of : gmap string Answer) (acc : Summary)
    (i : string) (q : Question) :
  find_question qs i = Some q ->
  type q = mcq ->
  exists r g, score_step qs ans_of acc i = Returned r
    /\ total r = total acc + g
    /\ byIP r !! ip q = Some (or0 (byIP acc !! ip q) + g)
    /\ (g = LEVEL_POINTS (level q) \/ g = 0)
    /\ (g = LEVEL_POINTS (level q) <->
        exists a, ans_of !! i = Some a
                  /\ strict_eq (choiceIndex a) (correctIndex q) = true).
Proof.
  intros Hq Hty.
  exists (credit acc q (gain q (ans_of !! i))), (gain q (ans_of !! i)).
  split; [by apply score_step_found|].
  split; [done|]. split; [simpl; by rewrite lookup_insert_eq|].
  assert (Hpos : LEVEL_POINTS (level q) <> 0) by (by destruct (level q)).
  unfold gain. rewrite Hty.
  destruct (ans_of !! i) as [a|].
  - destruct (strict_eq (choiceIndex a) (correctIndex q)) eqn:Heq.
    + split; [by left|]. split; [eauto | done].
    + split; [by right|]. split; [intros Hg; by symmetry in Hg|].
      intros (a' & [= <-] & Heq'). congruence.
  - split; [by right|]. split; [intros Hg; by symmetry in Hg|].
    by intros (a' & ? & _).
Qed.

(** ** Worked examples *)

(** The third question of a topic is rejected with the per-topic alert. *)
Example third_of_topic_rejected :
  toggleBasket (scenario_state ["x1"; "x2"]) "x3"
  = Returned (scenario_state ["x1"; "x2"], Some AlertIPCap).
Proof. vm_compute. reflexivity. Qed.

(** A sixth question is rejected with the total alert, whatever its topic. *)
Example sixth_rejected :
  toggleBasket (scenario_state ["a"; "b"; "c"; "d"; "e"]) "y1"
  = Returned (scenario_state ["a"; "b"; "c"; "d"; "e"], Some AlertTotalCap).
Proof. vm_compute. reflexivity. Qed.

(** Toggling a member removes it; toggling it again appends it. *)
Example toggle_twice :
  basket (after_toggles (scenario_state []) ["x1"; "y1"; "x1"; "x1"]) = ["y1"; "x1"].
Proof. vm_compute. reflexivity. Qed.

(** Scoring of the scenario: x1 answered with index 1, y1 graded 2. *)
Example scenario_score :
  exists r,
    scoreSummary scenario_bank ["x1"; "y1"]
      (<["x1" := answer_choice (JNum 1)]> {["y1" := answer_manual (JNum 2)]})
    = Returned r
    /\ total r = 4
    /\ byIP r !! "X" = Some 2 /\ byIP r !! "Y" = Some 2
    /\ byLevel r !! "a" = Some 2 /\ byLevel r !! "b" = Some 2
    /\ byLevel r !! "c" = Some 0 /\ byLevel r !! "s" = Some 0.
Proof. eexists. split; [vm_compute; reflexivity|]. by repeat split. Qed.

(** A wrong index and a missing answer record both gain nothing. *)
Example wrong_or_missing_choice :
  (exists r, scoreSummary [sample_mcq] ["q1"] {["q1" := answer_choice (JNum 0)]}
             = Returned r /\ total r = 0)
  /\ (exists r, scoreSummary [sample_mcq] ["q1"] ∅ = Returned r /\ total r = 0).
Proof. split; (eexists; split; [vm_compute; reflexivity | reflexivity]). Qed.

(** ** Further properties of the selection *)

Local Open Scope list_scope.

Lemma inBasket_false (bk : list string) (i : string) : inBasket bk i = false <-> i ∉ bk.
Proof.
  rewrite <- inBasket_true. destruct (inBasket bk i); split; done.
Qed.

Lemma filter_ne_app_fresh (bk : list string) (i : string) :
  i ∉ bk -> filter (fun x => x ≠ i) (bk ++ [i]) = bk.
Proof.
  intros Hi. rewrite filter_app, filter_cons, decide_False by (intros H; by apply H).
  rewrite filter_nil, app_nil_r.
  induction bk as [|x bk IH]; [done|].
  apply not_elem_of_cons in Hi as [Hne Hi].
  rewrite filter_cons, decide_True by done. f_equal. by apply IH.
Qed.

Lemma set_basket_back (st : App) (bk : list string) :
  set_basket (set_basket st bk) (basket st) = st.
Proof. by destruct st. Qed.

(** The outcome of adding a found question, by the size of the basket and
    the number of members of its topic. *)
Lemma toggle_add_cases (st : App) (i : string) (q : Question) :
  inBasket (basket st) i = false ->
  find_question (questions st) i = Some q ->
  toggleBasket st i =
  Returned (if decide (5 <= length (basket st))%nat then (st, Some AlertTotalCap)
            else if decide (2 <= count_topic (questions st) (basket st) (ip q))%nat
                 then (st, Some AlertIPCap)
                 else (set_basket st (basket st ++ [i]), None)).
Proof.
  intros Hin Hq. unfold toggleBasket.
  destruct (perIPCounts_spec (questions st) (basket st)) as (m & -> & Hm). simpl.
  rewrite Hin, Hq. simpl. rewrite orb_false_r, Hm.
  destruct (Z.ltb_spec (Z.of_nat (length (basket st))) 5) as [Hlt|Hge]; simpl.
  - rewrite decide_False by lia.
    destruct (Z.ltb_spec (Z.of_nat (count_topic (questions st) (basket st) (ip q))) 2);
      simpl; [by rewrite decide_False by lia | by rewrite decide_True by lia].
  - by rewrite decide_True by lia.
Qed.

Lemma toggle_remove_case (st : App) (i : string) :
  inBasket (basket st) i = true ->
  toggleBasket st i =
  Returned (set_basket st (filter (fun x => x ≠ i) (basket st)), None).
Proof.
  intros Hin. unfold toggleBasket.
  destruct (perIPCounts_spec (questions st) (basket st)) as (m & -> & _). simpl.
  by rewrite Hin.
Qed.

Lemma after_toggle_nodup (st : App) (i : string) :
  NoDup (basket st) -> NoDup (basket (after_toggle st i)).
Proof.
  intros Hnd. unfold after_toggle.
  destruct (inBasket (basket st) i) eqn:Hin.
  - rewrite (toggle_remove_case _ _ Hin). simpl. by apply NoDup_filter.
  - destruct (find_question (questions st) i) as [q|] eqn:Hq.
    + rewrite (toggle_add_cases _ _ _ Hin Hq).
      destruct (decide _); [done|]. destruct (decide _); [done|]. simpl.
      apply NoDup_app. split; [done|]. split; [|apply NoDup_singleton].
      intros x Hx Hx'. apply list_elem_of_singleton in Hx' as ->.
      by apply inBasket_false in Hin.
    + unfold toggleBasket.
      destruct (perIPCounts_spec (questions st) (basket st)) as (m & -> & _). simpl.
      by rewrite Hin, Hq.
Qed.

Lemma after_toggles_nodup (ids : list string) : forall st,
  NoDup (basket st) -> NoDup (basket (after_toggles st ids)).
Proof.
  induction ids as [|i ids IH]; intros st Hnd; simpl; [done|].
  by apply IH, after_toggle_nodup.
Qed.

(** X1. Starting from the empty basket, no sequence of calls of
    [toggleBasket] ever puts the same id into the basket twice. *)
Theorem toggles_never_duplicate
    (t : Tab) (qs : list Question) (sel : string) (p : Phase)
    (ans_of : gmap string Answer) (ids : list string) :
  NoDup (basket (after_toggles
                   {| tab := t; questions := qs; selectedIP := sel; basket := [];
                      phase := p; answers := ans_of |} ids)).
Proof. apply after_toggles_nodup. simpl. apply NoDup_nil_2. Qed.

(** X2. Adding a question that is in the bank and not in the basket has
    exactly three outcomes, decided in this order: the total alert when the
    basket already holds 5 ids (whatever the topic), the per-topic alert when
    2 members of the basket already have the topic of the question, and
    otherwise, for a topic that does not name a member of
    [Object.prototype], the id appended at the end.  Both alerts leave the
    state untouched. *)
Theorem toggle_add_outcome (st : App) (i : string) (q : Question) :
  inBasket (basket st) i = false ->
  find_question (questions st) i = Some q ->
  ((5 <= length (basket st))%nat ->
     toggleBasket st i = Returned (st, Some AlertTotalCap))
  /\ ((length (basket st) < 5)%nat ->
      (2 <= count_topic (questions st) (basket st) (ip q))%nat ->
      toggleBasket st i = Returned (st, Some AlertIPCap))
  /\ ((length (basket st) < 5)%nat ->
      (count_topic (questions st) (basket st) (ip q) < 2)%nat ->
      is_proto_member (ip q) = false ->
      toggleBasket st i = Returned (set_basket st (basket st ++ [i]), None)).
Proof.
  intros Hin Hq. rewrite (toggle_add_cases _ _ _ Hin Hq).
  split; [|split].
  - intros H. by rewrite decide_True.
  - intros H1 H2. rewrite decide_False by lia. by rewrite decide_True.
  - intros H1 H2 _. rewrite decide_False by lia. by rewrite decide_False by lia.
Qed.

Lemma toggle_add_outcome_witness :
  inBasket (basket (scenario_state ["x1"; "x2"])) "x3" = false
  /\ find_question (questions (scenario_state ["x1"; "x2"])) "x3"
     = Some {| id := "x3"; ip := "X"; type := mcq; level := LvB; correctIndex := JNum 1 |}
  /\ toggleBasket (scenario_state ["x1"; "x2"]) "x3"
     = Returned (scenario_state ["x1"; "x2"], Some AlertIPCap)
  /\ is_proto_member "Y" = false
  /\ toggleBasket (scenario_state ["x1"; "x2"]) "y1"
     = Returned (scenario_state ["x1"; "x2"; "y1"], None).
Proof.
  split; [reflexivity|]. split; [reflexivity|]. split.
  - apply (proj1 (proj2 (toggle_add_outcome (scenario_state ["x1"; "x2"]) "x3"
                           {| id := "x3"; ip := "X"; type := mcq; level := LvB;
                              correctIndex := JNum 1 |} eq_refl eq_refl))).
    + simpl. lia.
    + vm_compute. lia.
  - split; [reflexivity|].
    apply (proj2 (proj2 (toggle_add_outcome (scenario_state ["x1"; "x2"]) "y1"
                           {| id := "y1"; ip := "Y"; type := short; level := LvA;
                              correctIndex := JUndefined |} eq_refl eq_refl))).
    + simpl. lia.
    + vm_compute. lia.
    + reflexivity.
Defined.

(** X3. Toggling an id into the basket and toggling it again gives back the
    state before the two calls: same basket, in the same order. *)
Theorem toggle_twice_restores (st st' : App) (i : string) :
  inBasket (basket st) i = false ->
  toggleBasket st i = Returned (st', None) ->
  toggleBasket st' i = Returned (st, None).
Proof.
  intros Hin Hadd.
  destruct (find_question (questions st) i) as [q|] eqn:Hq.
  - rewrite (toggle_add_cases _ _ _ Hin Hq) in Hadd.
    destruct (decide _); [done|]. destruct (decide _); [done|].
    injection Hadd as <-.
    rewrite toggle_remove_case.
    + simpl. rewrite filter_ne_app_fresh by (by apply inBasket_false).
      by rewrite set_basket_back.
    + simpl. apply inBasket_true. set_solver.
  - unfold toggleBasket in Hadd.
    destruct (perIPCounts_spec (questions st) (basket st)) as (m & Hm & _).
    rewrite Hm in Hadd. simpl in Hadd. by rewrite Hin, Hq in Hadd.
Qed.

Lemma toggle_twice_restores_witness :
  inBasket (basket (scenario_state ["y1"])) "x1" = false
  /\ toggleBasket (scenario_state ["y1"]) "x1"
     = Returned (scenario_state ["y1"; "x1"], None)
  /\ toggleBasket (scenario_state ["y1"; "x1"]) "x1"
     = Returned (scenario_state ["y1"], None).
Proof.
  split; [reflexivity|]. split; [vm_compute; reflexivity|].
  apply (toggle_twice_restores (scenario_state ["y1"]) (scenario_state ["y1"; "x1"]) "x1").
  - reflexivity.
  - vm_compute. reflexivity.
Defined.

(** X4. Removing is always permitted: toggling a member of the basket
    returns without an alert, also when the basket is full or its question
    has left the bank; afterwards the id is gone, the other members are kept
    in their order, and the basket is shorter. *)
Theorem toggle_member_removes (st : App) (i : string) :
  inBasket (basket st) i = true ->
  exists st', toggleBasket st i = Returned (st', None)
    /\ basket st' = filter (fun x => x ≠ i) (basket st)
    /\ (i ∉ basket st')
    /\ (length (basket st') < length (basket st))%nat
    /\ questions st' = questions st /\ phase st' = phase st
    /\ answers st' = answers st.
Proof.
  intros Hin. eexists. split; [by apply toggle_remove_case|]. simpl.
  split; [done|]. split.
  - rewrite list_elem_of_filter. by intros [? _].
  - split; [|done]. apply inBasket_true in Hin.
    apply (length_filter_lt _ _ i); [done|]. by intros H.
Qed.

Lemma toggle_member_removes_witness :
  inBasket (basket (scenario_state ["a"; "b"; "c"; "d"; "e"])) "c" = true
  /\ exists st', toggleBasket (scenario_state ["a"; "b"; "c"; "d"; "e"]) "c"
                 = Returned (st', None)
       /\ basket st' = filter (fun x => x ≠ "c") ["a"; "b"; "c"; "d"; "e"].
Proof.
  split; [reflexivity|].
  destruct (toggle_member_removes (scenario_state ["a"; "b"; "c"; "d"; "e"]) "c" eq_refl)
    as (st' & Hrun & Hbk & _).
  exists st'. split; [exact Hrun | exact Hbk].
Defined.

(** ** Further properties of the controls *)

Lemma visibleQuestions_in_bank (st : App) (q : Question) :
  In q (visibleQuestions st) -> In q (questions st).
Proof.
  unfold visibleQuestions. intros H. apply filter_In in H as [H _].
  destruct (bool_decide (phase st = pick)); by apply filter_In in H as [H _].
Qed.

Lemma find_question_of_member (qs : list Question) (q : Question) :
  In q qs -> is_Some (find_question qs (id q)).
Proof.
  intros Hin. unfold find_question.
  destruct (List.find _ qs) as [q'|] eqn:Hfind; [eauto|].
  apply (find_none _ _ Hfind) in Hin. by rewrite String.eqb_refl in Hin.
Qed.

Lemma click_toggle_returns (st : App) (i : string) :
  usable st (BtnToggle i) = true ->
  exists eff, toggleBasket st i = Returned eff.
Proof.
  simpl. intros Huse. apply andb_prop in Huse as [_ Hvis].
  apply existsb_exists in Hvis as (q & Hq & Hid).
  apply String.eqb_eq in Hid. subst i.
  apply visibleQuestions_in_bank, find_question_of_member in Hq as [q' Hq'].
  destruct (inBasket (basket st) (id q)) eqn:Hin.
  - rewrite (toggle_remove_case _ _ Hin). eauto.
  - rewrite (toggle_add_cases _ _ _ Hin Hq'). eauto.
Qed.

(** X5. A click never throws: the toggle button sits on the card of a
    question of the bank, so the lookup in [toggleBasket] finds it. *)
Theorem click_never_throws (st : App) (c : Control) :
  exists st' msg, click st c = Returned (st', msg).
Proof.
  unfold click. destruct (usable st c) eqn:Huse; [|by eauto].
  destruct c as [| | | |i]; simpl.
  - destruct (startQuiz st) as [st' msg]. eauto.
  - unfold resetAll. eauto.
  - unfold revealReferences. eauto.
  - unfold finishAndShowScore. eauto.
  - destruct (click_toggle_returns st i Huse) as ([st' msg] & ->). eauto.
Qed.

(** Outside the pick phase only reset changes the basket: start, reveal
    and finish keep it, and the toggle buttons are not there. *)
Lemma basket_frozen_after_start
    (st st' : App) (c : Control) (msg : option Alert) :
  phase st <> pick ->
  c <> BtnReset ->
  click st c = Returned (st', msg) ->
  basket st' = basket st /\ answers st' = answers st.
Proof.
  intros Hphase Hc. unfold click.
  destruct c as [| | | |i]; simpl; try done.
  - rewrite bool_decide_eq_false_2 by done. rewrite orb_true_r. simpl.
    by intros [= <- _].
  - destruct (bool_decide _); by intros [= <- _].
  - destruct (bool_decide _); by intros [= <- _].
  - rewrite (bool_decide_eq_false_2 (phase st = pick)) by done.
    rewrite andb_false_r. simpl. by intros [= <- _].
Qed.

Lemma after_click_ok (st : App) (c : Control) :
  session_ok st -> session_ok (after_click st c).
Proof.
  intros (Hcaps & Hnd & Hne). unfold after_click, click.
  destruct (usable st c) eqn:Huse; [|done].
  destruct c as [| | | |i]; simpl in *.
  - apply negb_true_iff, orb_false_iff in Huse as [Hlen _].
    unfold startQuiz. rewrite Hlen. simpl. split; [done|]. split; [done|].
    simpl. intros _ Hbk. by rewrite Hbk in Hlen.
  - split; [|split; [apply NoDup_nil_2 | done]].
    split; [simpl; lia|]. intros T. rewrite count_topic_nil. lia.
  - apply bool_decide_eq_true_1 in Huse. split; [done|]. split; [done|].
    intros _. apply Hne. by rewrite Huse.
  - apply bool_decide_eq_true_1 in Huse. split; [done|]. split; [done|].
    intros _. apply Hne. by rewrite Huse.
  - assert (Hpick : phase st = pick).
    { apply andb_prop in Huse as [Huse _]. apply andb_prop in Huse as [_ Hp].
      by apply bool_decide_eq_true_1 in Hp. }
    pose proof (after_toggle_caps st i Hcaps) as Hcaps'.
    pose proof (after_toggle_nodup st i Hnd) as Hnd'.
    pose proof (after_toggle_questions st i) as Hqs.
    unfold after_toggle in *.
    destruct (toggleBasket st i) as [[st' msg]|] eqn:Hrun; [|done].
    unfold session_ok. rewrite Hqs. split; [done|]. split; [done|].
    apply toggleBasket_phase in Hrun. rewrite Hrun, Hpick. done.
Qed.

Lemma after_clicks_ok (cs : list Control) : forall st,
  session_ok st -> session_ok (after_clicks st cs).
Proof.
  induction cs as [|c cs IH]; intros st Hok; simpl; [done|].
  by apply IH, after_click_ok.
Qed.

(** X7. In every state reached by clicks from a session in the pick phase
    with an empty basket, the basket keeps both caps, holds no id twice, and
    is not empty once the session has left the pick phase. *)
Theorem reachable_sessions_ok
    (t : Tab) (qs : list Question) (sel : string)
    (ans_of : gmap string Answer) (cs : list Control) :
  let st := after_clicks
              {| tab := t; questions := qs; selectedIP := sel; basket := [];
                 phase := pick; answers := ans_of |} cs in
  (length (basket st) <= 5)%nat
  /\ (forall T, (count_topic (questions st) (basket st) T <= 2)%nat)
  /\ NoDup (basket st)
  /\ (phase st <> pick -> basket st <> []).
Proof.
  intros st.
  assert (Hok : session_ok st).
  { apply after_clicks_ok. split; [|split; [apply NoDup_nil_2 | done]].
    split; [simpl; lia|]. intros T. simpl. rewrite count_topic_nil. lia. }
  destruct Hok as ((Hlen & Htopic) & Hnd & Hne). by repeat split.
Qed.

Lemma reachable_sessions_ok_witness :
  phase (after_clicks (scenario_state []) [BtnToggle "x1"; BtnStart]) <> pick
  /\ basket (after_clicks (scenario_state []) [BtnToggle "x1"; BtnStart]) <> [].
Proof.
  assert (Hrun : phase (after_clicks (scenario_state []) [BtnToggle "x1"; BtnStart])
                 <> pick) by (vm_compute; discriminate).
  split; [exact Hrun|].
  destruct (reachable_sessions_ok quiz scenario_bank "" ∅ [BtnToggle "x1"; BtnStart])
    as (_ & _ & _ & Hne).
  apply Hne. exact Hrun.
Defined.

(** ** Further properties of the score summary *)

Lemma score_step_ext (qs : list Question) (a1 a2 : gmap string Answer)
    (acc : Summary) (i : string) :
  a1 !! i = a2 !! i -> score_step qs a1 acc i = score_step qs a2 acc i.
Proof.
  intros Heq. destruct (find_question qs i) as [q|] eqn:Hq.
  - by rewrite !(score_step_found _ _ _ _ _ Hq), Heq.
  - by rewrite !(score_step_absent _ _ _ _ Hq).
Qed.

Lemma score_loop_ext (qs : list Question) (a1 a2 : gmap string Answer)
    (bk : list string) : forall acc,
  (forall i, i ∈ bk -> a1 !! i = a2 !! i) ->
  score_loop qs a1 acc bk = score_loop qs a2 acc bk.
Proof.
  induction bk as [|i bk IH]; intros acc Heq; simpl; [done|].
  rewrite (score_step_ext qs a1 a2) by (apply Heq; set_solver).
  destruct (score_step qs a2 acc i); simpl; [|done].
  apply IH. intros j Hj. apply Heq. set_solver.
Qed.

(** X8. Answer records of ids outside the basket do not count: writing or
    deleting the record of such an id leaves the summary as it is. *)
Theorem stale_answers_ignored
    (qs : list Question) (bk : list string) (ans_of : gmap string Answer)
    (i : string) (a : Answer) :
  i ∉ bk ->
  scoreSummary qs bk (<[i := a]> ans_of) = scoreSummary qs bk ans_of
  /\ scoreSummary qs bk (delete i ans_of) = scoreSummary qs bk ans_of.
Proof.
  intros Hi. unfold scoreSummary. split; apply score_loop_ext; intros j Hj.
  - apply lookup_insert_ne. by intros ->.
  - apply lookup_delete_ne. by intros ->.
Qed.

Lemma stale_answers_ignored_witness :
  ("q2" ∉ ["q1"])
  /\ scoreSummary [sample_mcq; sample_short] ["q1"]
       (<["q2" := answer_manual (JNum 5)]> {["q1" := answer_choice (JNum 1)]})
     = scoreSummary [sample_mcq; sample_short] ["q1"]
         {["q1" := answer_choice (JNum 1)]}.
Proof.
  assert (Hout : "q2" ∉ ["q1"]) by (by intros ?%list_elem_of_singleton).
  split; [exact Hout|].
  apply (proj1 (stale_answers_ignored [sample_mcq; sample_short] ["q1"]
                  {["q1" := answer_choice (JNum 1)]} "q2"
                  (answer_manual (JNum 5)) Hout)).
Defined.

Lemma bump_comm (m : gmap string Z) (k1 k2 : string) (g1 g2 : Z) :
  <[k2 := or0 (<[k1 := or0 (m !! k1) + g1]> m !! k2) + g2]>
    (<[k1 := or0 (m !! k1) + g1]> m)
  = <[k1 := or0 (<[k2 := or0 (m !! k2) + g2]> m !! k1) + g1]>
      (<[k2 := or0 (m !! k2) + g2]> m).
Proof.
  destruct (decide (k1 = k2)) as [->|Hne].
  - rewrite !lookup_insert_eq, !or0_some, !insert_insert_eq. f_equal. lia.
  - rewrite !lookup_insert_ne by done. by apply insert_insert_ne.
Qed.

Lemma add_comm_alter (m : gmap string Z) (k1 k2 : string) (g1 g2 : Z) :
  alter (fun v => v + g2) k2 (alter (fun v => v + g1) k1 m)
  = alter (fun v => v + g1) k1 (alter (fun v => v + g2) k2 m).
Proof.
  destruct (decide (k1 = k2)) as [->|Hne]; [|by apply alter_alter_ne].
  apply map_eq. intros j. destruct (decide (k2 = j)) as [->|Hj].
  - rewrite !lookup_alter_eq. destruct (m !! j); simpl; [|done]. f_equal. lia.
  - by rewrite !lookup_alter_ne.
Qed.

Lemma credit_comm (acc : Summary) (q1 q2 : Question) (g1 g2 : Z) :
  credit (credit acc q1 g1) q2 g2 = credit (credit acc q2 g2) q1 g1.
Proof.
  unfold credit. simpl. f_equal; [lia | apply bump_comm | apply add_comm_alter].
Qed.

Lemma score_loop_perm (qs : list Question) (ans_of : gmap string Answer)
    (bk bk' : list string) :
  Permutation bk bk' ->
  forall acc, score_loop qs ans_of acc bk = score_loop qs ans_of acc bk'.
Proof.
  induction 1 as [|x l l' _ IH|x y l|l l' l'' _ IH1 _ IH2]; intros acc; simpl.
  - done.
  - destruct (score_step qs ans_of acc x); simpl; [apply IH | done].
  - destruct (find_question qs x) as [qx|] eqn:Hx;
      destruct (find_question qs y) as [qy|] eqn:Hy;
      rewrite ?(score_step_found _ _ _ _ _ Hx), ?(score_step_found _ _ _ _ _ Hy),
              ?(score_step_absent _ _ _ _ Hx), ?(score_step_absent _ _ _ _ Hy);
      simpl;
      rewrite ?(score_step_found _ _ _ _ _ Hx), ?(score_step_found _ _ _ _ _ Hy),
              ?(score_step_absent _ _ _ _ Hx), ?(score_step_absent _ _ _ _ Hy);
      simpl; try done.
    by rewrite credit_comm.
  - by rewrite IH1.
Qed.

(** X9. The summary does not depend on the order of the basket: two
    baskets with the same members give the same total and the same [byIP]
    and [byLevel] mappings. *)
Theorem score_order_independent
    (qs : list Question) (ans_of : gmap string Answer) (bk bk' : list string) :
  Permutation bk bk' ->
  scoreSummary qs bk ans_of = scoreSummary qs bk' ans_of.
Proof. intros Hperm. unfold scoreSummary. by apply score_loop_perm. Qed.

Lemma score_order_independent_witness :
  Permutation ["x1"; "y1"] ["y1"; "x1"]
  /\ scoreSummary scenario_bank ["x1"; "y1"] {["y1" := answer_manual (JNum 2)]}
     = scoreSummary scenario_bank ["y1"; "x1"] {["y1" := answer_manual (JNum 2)]}.
Proof.
  split; [apply perm_swap|].
  apply (score_order_independent scenario_bank
           {["y1" := answer_manual (JNum 2)]} ["x1"; "y1"] ["y1"; "x1"]).
  apply perm_swap.
Defined.

Lemma LEVEL_POINTS_pos (l : Level) : 0 < LEVEL_POINTS l.
Proof. destruct l; simpl; lia. Qed.

Lemma gain_bounds (qs : list Question) (ans_of : gmap string Answer)
    (i : string) (q : Question) :
  graded_in_range qs ans_of ->
  find_question qs i = Some q ->
  0 <= gain q (ans_of !! i) <= LEVEL_POINTS (level q).
Proof.
  intros Hrange Hq. pose proof (LEVEL_POINTS_pos (level q)) as Hpos.
  unfold gain. destruct (type q) eqn:Hty.
  - destruct (ans_of !! i) as [a|]; [|lia]. destruct (strict_eq _ _); lia.
  - destruct (ans_of !! i) as [a|] eqn:Ha; [|lia].
    destruct (manualScore a) eqn:Hm; try lia.
    apply (Hrange i q a n); try done. by rewrite Hty.
  - destruct (ans_of !! i) as [a|] eqn:Ha; [|lia].
    destruct (manualScore a) eqn:Hm; try lia.
    apply (Hrange i q a n); try done. by rewrite Hty.
  - destruct (ans_of !! i) as [a|] eqn:Ha; [|lia].
    destruct (manualScore a) eqn:Hm; try lia.
    apply (Hrange i q a n); try done. by rewrite Hty.
  - destruct (ans_of !! i) as [a|] eqn:Ha; [|lia].
    destruct (manualScore a) eqn:Hm; try lia.
    apply (Hrange i q a n); try done. by rewrite Hty.
Qed.

Lemma score_loop_bounds (qs : list Question) (ans_of : gmap string Answer)
    (bk : list string) :
  graded_in_range qs ans_of ->
  forall acc, exists r,
    score_loop qs ans_of acc bk = Returned r
    /\ total acc <= total r <= total acc + max_points qs bk.
Proof.
  intros Hrange. induction bk as [|i bk IH]; intros acc; simpl.
  - exists acc. split; [done | lia].
  - destruct (find_question qs i) as [q|] eqn:Hq.
    + rewrite (score_step_found _ _ _ _ _ Hq). simpl.
      destruct (IH (credit acc q (gain q (ans_of !! i)))) as (r & Hr & Hb).
      exists r. split; [done|]. simpl in Hb.
      pose proof (gain_bounds qs ans_of i q Hrange Hq). lia.
    + rewrite (score_step_absent _ _ _ _ Hq). simpl.
      destruct (IH acc) as (r & Hr & Hb). exists r. split; [done | lia].
Qed.

Lemma max_points_le (qs : list Question) (bk : list string) :
  0 <= max_points qs bk <= 5 * Z.of_nat (length bk).
Proof.
  induction bk as [|i bk IH]; simpl; [lia|].
  destruct (find_question qs i) as [q|]; [|lia].
  destruct (level q); simpl; lia.
Qed.

(** X10. When every numeric manual score of a manually graded question
    lies between 0 and the point value of the question, the total lies
    between 0 and the sum of the point values of the basket's questions
    found in the bank, hence is at most 5 points per basket member. *)
Theorem score_within_points
    (qs : list Question) (bk : list string) (ans_of : gmap string Answer) :
  graded_in_range qs ans_of ->
  exists r, scoreSummary qs bk ans_of = Returned r
    /\ 0 <= total r <= max_points qs bk
    /\ max_points qs bk <= 5 * Z.of_nat (length bk).
Proof.
  intros Hrange.
  destruct (score_loop_bounds qs ans_of bk Hrange summary0) as (r & Hr & Hb).
  exists r. split; [done|]. simpl in Hb. split; [lia|]. apply max_points_le.
Qed.

Lemma score_within_points_witness :
  graded_in_range scenario_bank {["y1" := answer_manual (JNum 2)]}
  /\ exists r, scoreSummary scenario_bank ["x1"; "y1"]
                 {["y1" := answer_manual (JNum 2)]} = Returned r
       /\ 0 <= total r <= max_points scenario_bank ["x1"; "y1"]
       /\ max_points scenario_bank ["x1"; "y1"] <= 5 * Z.of_nat (length ["x1"; "y1"]).
Proof.
  assert (Hrange : graded_in_range scenario_bank {["y1" := answer_manual (JNum 2)]}).
  { intros i q a n Hq Hty Ha Hm.
    destruct (decide (i = "y1")) as [->|Hne].
    - rewrite lookup_singleton_eq in Ha. injection Ha as <-.
      injection Hm as <-. injection Hq as <-. simpl. lia.
    - by rewrite lookup_singleton_ne in Ha. }
  split; [exact Hrange|].
  apply (score_within_points scenario_bank ["x1"; "y1"]
           {["y1" := answer_manual (JNum 2)]} Hrange).
Defined.

(** ** Recording answers *)

(** X11. [setAnswer] merges: recording a choice keeps the manual score the
    record already had, recording a manual score keeps the choice, the first
    write on an id starts from an empty record, and the records of all other
    ids, the basket and the phase are left alone. *)
Theorem setAnswer_merges (st : App) (q : Question) (v : Z) :
  (exists a, answers (choose st q v) !! id q = Some a
     /\ choiceIndex a = JNum v
     /\ manualScore a = match answers st !! id q with
                        | Some old => manualScore old
                        | None => JUndefined
                        end)
  /\ (exists a, answers (grade st q v) !! id q = Some a
        /\ manualScore a = JNum v
        /\ choiceIndex a = chosen_of (answers st !! id q))
  /\ (forall other data, other <> id q ->
        answers (setAnswer st (id q) data) !! other = answers st !! other)
  /\ (forall data, basket (setAnswer st (id q) data) = basket st
                   /\ phase (setAnswer st (id q) data) = phase st
                   /\ questions (setAnswer st (id q) data) = questions st).
Proof.
  split; [|split; [|split]].
  - unfold choose, setAnswer. simpl. rewrite lookup_insert_eq.
    eexists. split; [reflexivity|]. simpl.
    by destruct (answers st !! id q).
  - unfold grade, setAnswer. simpl. rewrite lookup_insert_eq.
    eexists. split; [reflexivity|]. simpl.
    by destruct (answers st !! id q).
  - intros other data Hne. unfold setAnswer. simpl.
    by rewrite lookup_insert_ne.
  - done.
Qed.

Lemma setAnswer_merges_witness :
  "q2" <> id sample_mcq
  /\ answers (setAnswer (sample_state ["q1"] running) (id sample_mcq)
                {| patch_choiceIndex := Some (JNum 0); patch_manualScore := None |})
       !! "q2"
     = answers (sample_state ["q1"] running) !! "q2".
Proof.
  assert (Hne : "q2" <> id sample_mcq) by discriminate.
  split; [exact Hne|].
  apply (proj1 (proj2 (proj2 (setAnswer_merges (sample_state ["q1"] running)
                                sample_mcq 0)))
           "q2" {| patch_choiceIndex := Some (JNum 0); patch_manualScore := None |}
           Hne).
Defined.

(** X12. The last choice wins: after [choose(idx)] on a multiple-choice
    question whose correct index is the number [k], the scorer gives the
    question its full points when [idx] is [k] and nothing otherwise,
    whatever was recorded for it before. *)
Theorem last_choice_wins
    (st : App) (q : Question) (k idx : Z) (acc : Summary) :
  find_question (questions st) (id q) = Some q ->
  type q = mcq ->
  correctIndex q = JNum k ->
  exists r,
    score_step (questions st) (answers (choose st q idx)) acc (id q) = Returned r
    /\ total r = total acc + (if decide (idx = k) then LEVEL_POINTS (level q) else 0).
Proof.
  intros Hq Hty Hk. rewrite (score_step_found _ _ _ _ _ Hq).
  eexists. split; [reflexivity|]. simpl. f_equal.
  unfold gain, choose, setAnswer. rewrite Hty. simpl.
  rewrite lookup_insert_eq. simpl. rewrite Hk. simpl.
  destruct (Z.eqb_spec idx k); by destruct (decide (idx = k)).
Qed.

Lemma last_choice_wins_witness :
  find_question (questions (setAnswer (sample_state ["q1"] running) "q1"
                              {| patch_choiceIndex := Some (JNum 1);
                                 patch_manualScore := None |}))
                (id sample_mcq) = Some sample_mcq
  /\ type sample_mcq = mcq
  /\ correctIndex sample_mcq = JNum 1
  /\ exists r,
       score_step [sample_mcq; sample_short]
         (answers (choose (choose (sample_state ["q1"] running) sample_mcq 1)
                          sample_mcq 0))
         summary0 "q1" = Returned r
       /\ total r = 0.
Proof.
  split; [reflexivity|]. split; [reflexivity|]. split; [reflexivity|].
  apply (last_choice_wins (choose (sample_state ["q1"] running) sample_mcq 1)
           sample_mcq 1 0 summary0); reflexivity.
Defined.

Lemma manual_choices_bounds (q : Question) (p : Z) :
  In p (manual_choices q) -> 0 <= p <= LEVEL_POINTS (level q).
Proof.
  pose proof (LEVEL_POINTS_pos (level q)) as Hpos. unfold manual_choices.
  destruct (bool_decide (type q = fill)).
  - intros [<-|[<-|[]]]; lia.
  - rewrite in_map_iff. intros (n & <- & Hn). apply in_seq in Hn. lia.
Qed.

(** X13. The scores [ManualBlock] offers lie between 0 and the point value
    of the question; 0 and the full value are always offered; a question
    that is not fill-in-blank is offered every integer in between, and a
    fill-in-blank question only 0 and the full value. *)
Theorem manual_choices_range (q : Question) :
  (forall p, In p (manual_choices q) -> 0 <= p <= LEVEL_POINTS (level q))
  /\ In 0 (manual_choices q)
  /\ In (LEVEL_POINTS (level q)) (manual_choices q)
  /\ (type q <> fill ->
      forall p, 0 <= p <= LEVEL_POINTS (level q) -> In p (manual_choices q))
  /\ (type q = fill ->
      forall p, In p (manual_choices q) -> p = 0 \/ p = LEVEL_POINTS (level q)).
Proof.
  pose proof (LEVEL_POINTS_pos (level q)) as Hpos.
  unfold manual_choices.
  destruct (bool_decide_reflect (type q = fill)) as [Hfill|Hfill].
  - split; [|split; [|split; [|split]]]; simpl; try tauto.
    + intros p [<-|[<-|[]]]; lia.
    + intros _ p [<-|[<-|[]]]; tauto.
  - assert (Hmem : forall p, In p (List.map Z.of_nat (seq 0 (Z.to_nat (LEVEL_POINTS (level q) + 1))))
                             <-> 0 <= p <= LEVEL_POINTS (level q)).
    { intros p. rewrite in_map_iff. split.
      - intros (n & <- & Hn). apply in_seq in Hn. lia.
      - intros Hp. exists (Z.to_nat p). split; [lia|]. apply in_seq. lia. }
    split; [|split; [|split; [|split]]].
    + intros p. apply Hmem.
    + apply Hmem. lia.
    + apply Hmem. lia.
    + intros _ p. apply Hmem.
    + done.
Qed.

Lemma manual_choices_range_witness :
  (In 3 (manual_choices sample_short)
   /\ type sample_short <> fill
   /\ 0 <= 3 <= LEVEL_POINTS (level sample_short))
  /\ (type (fill_question LvS) = fill
      /\ In 5 (manual_choices (fill_question LvS))
      /\ ~ In 3 (manual_choices (fill_question LvS))).
Proof.
  assert (Hty : type sample_short <> fill) by discriminate.
  assert (Hin : In 3 (manual_choices sample_short)).
  { apply (proj1 (proj2 (proj2 (proj2 (manual_choices_range sample_short)))) Hty 3).
    simpl. lia. }
  split.
  - split; [exact Hin|]. split; [exact Hty|].
    apply (proj1 (manual_choices_range sample_short) 3 Hin).
  - split; [reflexivity|]. split.
    + apply (proj1 (proj2 (proj2 (manual_choices_range (fill_question LvS))))).
    + intros H3.
      destruct (proj2 (proj2 (proj2 (proj2 (manual_choices_range (fill_question LvS)))))
                  eq_refl 3 H3) as [H|H]; discriminate H.
Defined.

(** X14. Grades given through [ManualBlock] stay in range: if every manual
    score on record lies within the point value of its question, so it does
    after a click on an offered score of a question [q] that the bank finds
    under its id, and after any choice recorded by [MCQBlock]. *)
Theorem grading_keeps_range (st : App) (q : Question) (p idx : Z) :
  graded_in_range (questions st) (answers st) ->
  find_question (questions st) (id q) = Some q ->
  In p (manual_choices q) ->
  graded_in_range (questions st) (answers (grade st q p))
  /\ graded_in_range (questions st) (answers (choose st q idx)).
Proof.
  intros Hrange Hq Hp. split.
  - intros i q' a n Hq' Hty Ha Hm. unfold grade, setAnswer in Ha. simpl in Ha.
    destruct (decide (i = id q)) as [->|Hne].
    + rewrite lookup_insert_eq in Ha. injection Ha as <-. simpl in Hm.
      injection Hm as <-. rewrite Hq in Hq'. injection Hq' as <-.
      by apply manual_choices_bounds.
    + rewrite lookup_insert_ne in Ha by done. by apply (Hrange i q' a n).
  - intros i q' a n Hq' Hty Ha Hm. unfold choose, setAnswer in Ha. simpl in Ha.
    destruct (decide (i = id q)) as [->|Hne].
    + rewrite lookup_insert_eq in Ha. injection Ha as <-. simpl in Hm.
      destruct (answers st !! id q) as [old|] eqn:Hold; simpl in Hm; [|done].
      by apply (Hrange (id q) q' old n).
    + rewrite lookup_insert_ne in Ha by done. by apply (Hrange i q' a n).
Qed.

Lemma grading_keeps_range_witness :
  graded_in_range (questions (sample_state ["q2"] running))
                  (answers (sample_state ["q2"] running))
  /\ find_question (questions (sample_state ["q2"] running)) (id sample_short)
     = Some sample_short
  /\ In 4 (manual_choices sample_short)
  /\ graded_in_range (questions (sample_state ["q2"] running))
       (answers (grade (sample_state ["q2"] running) sample_short 4)).
Proof.
  assert (Hrange : graded_in_range (questions (sample_state ["q2"] running))
                     (answers (sample_state ["q2"] running))).
  { intros i q a n _ _ Ha. simpl in Ha. by rewrite lookup_empty in Ha. }
  assert (Hin : In 4 (manual_choices sample_short)).
  { vm_compute. tauto. }
  split; [exact Hrange|]. split; [reflexivity|]. split; [exact Hin|].
  apply (proj1 (grading_keeps_range (sample_state ["q2"] running) sample_short 4 0
                  Hrange eq_refl Hin)).
Defined.

(** X15. What [MCQBlock] draws agrees with what the scorer awards.  For a
    multiple-choice question whose correct index is the number [k]: no
    option is drawn both as right and as a wrong pick; only option [k] is
    ever drawn as right; and the scorer gives the question its points
    exactly when a choice has been judged and no option is drawn as a wrong
    pick. *)
Theorem marks_agree_with_score
    (qs : list Question) (ans_of : gmap string Answer) (acc : Summary)
    (i : string) (q : Question) (k : Z) :
  find_question qs i = Some q ->
  type q = mcq ->
  correctIndex q = JNum k ->
  (forall idx, shown_correct q (ans_of !! i) idx && shown_wrong q (ans_of !! i) idx = false)
  /\ (forall idx, shown_correct q (ans_of !! i) idx = true -> idx = k)
  /\ exists r, score_step qs ans_of acc i = Returned r
       /\ (total r = total acc + LEVEL_POINTS (level q) <->
           judged (ans_of !! i) = true
           /\ forall idx, shown_wrong q (ans_of !! i) idx = false).
Proof.
  intros Hq Hty Hk. split; [|split].
  - intros idx. unfold shown_correct, shown_wrong.
    destruct (judged _), (isChosen _ _), (isCorrect q idx); done.
  - intros idx. unfold shown_correct, isCorrect. rewrite Hk. simpl.
    intros H. apply andb_prop in H as [_ H]. apply Z.eqb_eq in H. by symmetry.
  - rewrite (score_step_found _ _ _ _ _ Hq). eexists. split; [reflexivity|].
    pose proof (LEVEL_POINTS_pos (level q)) as Hpos.
    simpl. unfold gain, shown_wrong, isChosen, isCorrect, judged.
    rewrite Hty, Hk.
    destruct (ans_of !! i) as [a|]; simpl.
    + destruct (choiceIndex a) as [| |b|c|t|l]; simpl;
        try (split; [lia | by intros [? _]]).
      destruct (Z.eqb_spec c k) as [->|Hne].
      * split; [|lia]. intros _. split; [done|]. intros idx.
        by destruct (k =? idx).
      * split; [lia|]. intros [_ Hall]. specialize (Hall c).
        rewrite Z.eqb_refl in Hall. simpl in Hall.
        destruct (Z.eqb_spec k c); [congruence | done].
    + split; [lia | by intros [? _]].
Qed.

Lemma marks_agree_with_score_witness :
  find_question [sample_mcq] "q1" = Some sample_mcq
  /\ type sample_mcq = mcq
  /\ correctIndex sample_mcq = JNum 1
  /\ (forall idx,
        shown_correct sample_mcq
          (({["q1" := answer_choice (JNum 0)]} : gmap string Answer) !! "q1") idx
        = true -> idx = 1).
Proof.
  split; [reflexivity|]. split; [reflexivity|]. split; [reflexivity|].
  apply (proj1 (proj2 (marks_agree_with_score [sample_mcq]
                         {["q1" := answer_choice (JNum 0)]} summary0 "q1"
                         sample_mcq 1 eq_refl eq_refl eq_refl))).
Defined.

(** ** The question bank editor *)

Lemma score_step_bank_ext (qs1 qs2 : list Question) (ans_of : gmap string Answer)
    (acc : Summary) (i : string) :
  find_question qs1 i = find_question qs2 i ->
  score_step qs1 ans_of acc i = score_step qs2 ans_of acc i.
Proof. unfold score_step. by intros ->. Qed.

Lemma count_step_bank_ext (qs1 qs2 : list Question) (m : gmap string Z) (i : string) :
  find_question qs1 i = find_question qs2 i ->
  count_step qs1 m i = count_step qs2 m i.
Proof. unfold count_step. by intros ->. Qed.

Lemma find_question_map (its : list Item) (i : string) :
  find_question (List.map as_question its) i
  = as_question <$> List.find (fun it => String.eqb (item_id it) i) its.
Proof.
  unfold find_question. induction its as [|it its IH]; simpl; [done|].
  by destruct (String.eqb (item_id it) i).
Qed.

Lemma find_after_delete (its : list Item) (i j : string) :
  find_question (List.map as_question (deleteQuestion true its i)) j
  = if decide (j = i) then None else find_question (List.map as_question its) j.
Proof.
  rewrite !find_question_map. unfold deleteQuestion.
  induction its as [|it its IH]; simpl; [by destruct (decide _)|].
  destruct (String.eqb_spec (item_id it) i) as [Hi|Hi]; simpl.
  - rewrite IH. destruct (decide (j = i)) as [->|Hne]; [done|].
    destruct (String.eqb_spec (item_id it) j); [congruence | done].
  - destruct (String.eqb_spec (item_id it) j) as [Hj|Hj].
    + destruct (decide (j = i)); [congruence | done].
    + exact IH.
Qed.

#[local] Arguments deleteQuestion : simpl never.

Lemma score_loop_after_delete (its : list Item) (ans_of : gmap string Answer)
    (i : string) (bk : list string) : forall acc,
  score_loop (List.map as_question (deleteQuestion true its i)) ans_of acc bk
  = score_loop (List.map as_question its) ans_of acc (filter (fun x => x ≠ i) bk).
Proof.
  induction bk as [|j bk IH]; intros acc; [done|].
  rewrite filter_cons. simpl. destruct (decide (j ≠ i)) as [Hne|Heq].
  - simpl. rewrite (score_step_bank_ext _ (List.map as_question its)).
    + destruct (score_step _ ans_of acc j); simpl; [apply IH | done].
    + rewrite find_after_delete. by rewrite decide_False.
  - rewrite score_step_absent; [simpl; apply IH|].
    rewrite find_after_delete. rewrite decide_True; [done|].
    by destruct (decide (j = i)).
Qed.

Lemma count_loop_after_delete (its : list Item) (i : string) (bk : list string) :
  forall m,
  count_loop (List.map as_question (deleteQuestion true its i)) m bk
  = count_loop (List.map as_question its) m (filter (fun x => x ≠ i) bk).
Proof.
  induction bk as [|j bk IH]; intros m; [done|].
  rewrite filter_cons. simpl. destruct (decide (j ≠ i)) as [Hne|Heq].
  - simpl. rewrite (count_step_bank_ext _ (List.map as_question its)).
    + destruct (count_step _ m j); simpl; [apply IH | done].
    + rewrite find_after_delete. by rewrite decide_False.
  - unfold count_step at 1. rewrite find_after_delete.
    rewrite decide_True by (by destruct (decide (j = i))). simpl. apply IH.
Qed.

(** X16. Deleting a question from the bank has the effect on a running
    session of taking its id out of the basket: the summary and the
    per-topic counts over the old basket and the new bank are those over the
    basket without the id and the old bank.  A declined confirmation leaves
    the bank as it is. *)
Theorem delete_drops_contribution
    (its : list Item) (bk : list string) (ans_of : gmap string Answer) (i : string) :
  scoreSummary (List.map as_question (deleteQuestion true its i)) bk ans_of
  = scoreSummary (List.map as_question its) (filter (fun x => x ≠ i) bk) ans_of
  /\ perIPCounts (List.map as_question (deleteQuestion true its i)) bk
     = perIPCounts (List.map as_question its) (filter (fun x => x ≠ i) bk)
  /\ find_question (List.map as_question (deleteQuestion true its i)) i = None
  /\ deleteQuestion false its i = its.
Proof.
  split; [apply score_loop_after_delete|]. split; [apply count_loop_after_delete|].
  split; [|done]. rewrite find_after_delete. by rewrite decide_True.
Qed.

Lemma saveQuestion_cases (prev : list Item) (form : Item) (fresh : string) :
  let '(next, form', msg) := saveQuestion prev form fresh in
  (msg <> None /\ next = prev /\ form' = Some form
   /\ (item_ip form = "" \/ item_title form = ""
       \/ (item_type form = mcq /\ options_incomplete (item_options form) = true)))
  \/ (msg = None /\ form' = None /\ item_valid form /\ item_id form <> ""
      /\ next = List.map (fun q => if String.eqb (item_id q) (item_id form)
                                   then form else q) prev)
  \/ (msg = None /\ form' = None /\ item_valid form /\ item_id form = ""
      /\ next = with_id form fresh :: prev).
Proof.
  unfold saveQuestion.
  destruct (String.eqb_spec (item_ip form) "") as [Hip|Hip]; simpl.
  { left. split; [done|]. split; [done|]. split; [done|]. by left. }
  destruct (String.eqb_spec (item_title form) "") as [Htitle|Htitle]; simpl.
  { left. split; [done|]. split; [done|]. split; [done|]. right. by left. }
  destruct (bool_decide_reflect (item_type form = mcq)) as [Hty|Hty];
    [destruct (options_incomplete (item_options form)) eqn:Hopts|]; simpl.
  { left. split; [done|]. split; [done|]. split; [done|]. right. by right. }
  all: assert (Hvalid : item_valid form).
  all: try (split; [done|]; split; [done|]).
  - intros _. unfold options_incomplete in Hopts.
    destruct (item_options form) as [l|]; [|done].
    apply orb_false_iff in Hopts as [Hlen Hall].
    exists l. split; [done|]. split; [by destruct l|].
    apply Forall_forall. intros o Ho Hempty. subst o.
    assert (Hex : existsb (fun o => String.eqb o "") l = true).
    { apply existsb_exists. exists "". split; [by apply list_elem_of_In|done]. }
    congruence.
  - destruct (String.eqb_spec (item_id form) ""); simpl;
      [right; right | right; left]; done.
  - done.
  - destruct (String.eqb_spec (item_id form) ""); simpl;
      [right; right | right; left]; done.
Qed.

Lemma with_id_valid (it : Item) (i : string) : item_valid it -> item_valid (with_id it i).
Proof. done. Qed.

(** X17. The editor keeps the bank well formed: if every stored question
    has a topic, a title and, when multiple-choice, a non-empty list of
    non-empty options, the same holds after [saveQuestion] with any form
    (whether it alerts, updates or creates) and after [deleteQuestion]. *)
Theorem editor_keeps_bank_valid
    (prev : list Item) (form : Item) (fresh : string) (confirmed : bool) (i : string) :
  Forall item_valid prev ->
  Forall item_valid (saveQuestion prev form fresh).1.1
  /\ Forall item_valid (deleteQuestion confirmed prev i).
Proof.
  intros Hprev. split.
  - pose proof (saveQuestion_cases prev form fresh) as Hcases.
    destruct (saveQuestion prev form fresh) as [[next form'] msg]. simpl.
    destruct Hcases as [(_ & -> & _) | [(_ & _ & Hvalid & _ & ->) | (_ & _ & Hvalid & _ & ->)]].
    + done.
    + apply Forall_forall. intros it Hit. apply list_elem_of_In, in_map_iff in Hit
        as (q & <- & Hq).
      destruct (String.eqb _ _); [done|].
      apply list_elem_of_In in Hq. by apply (proj1 (Forall_forall _ _) Hprev).
    + apply Forall_cons. split; [by apply with_id_valid | done].
  - unfold deleteQuestion. destruct confirmed; [|done].
    apply Forall_forall. intros it Hit. apply list_elem_of_In, filter_In in Hit as [Hit _].
    apply list_elem_of_In in Hit. by apply (proj1 (Forall_forall _ _) Hprev).
Qed.

Lemma editor_keeps_bank_valid_witness :
  Forall item_valid [sample_item]
  /\ Forall item_valid (saveQuestion [sample_item] (with_id sample_item "") "n1").1.1.
Proof.
  assert (Hvalid : Forall item_valid [sample_item]).
  { apply Forall_cons. split; [|apply Forall_nil_2].
    split; [discriminate|]. split; [discriminate|]. intros _.
    exists ["a"; "b"]. split; [reflexivity|]. split; [discriminate|].
    repeat (apply Forall_cons; split; [discriminate|]). apply Forall_nil_2. }
  split; [exact Hvalid|].
  apply (proj1 (editor_keeps_bank_valid [sample_item] (with_id sample_item "") "n1"
                  true "q1" Hvalid)).
Defined.

Lemma find_after_replace (prev : list Item) (form : Item) (j : string) :
  List.find (fun it => String.eqb (item_id it) j)
    (List.map (fun q => if String.eqb (item_id q) (item_id form) then form else q) prev)
  = if decide (j = item_id form)
    then (fun _ => form) <$> List.find (fun it => String.eqb (item_id it) (item_id form)) prev
    else List.find (fun it => String.eqb (item_id it) j) prev.
Proof.
  induction prev as [|q prev IH]; simpl; [by destruct (decide _)|].
  destruct (String.eqb_spec (item_id q) (item_id form)) as [Hq|Hq].
  - destruct (decide (j = item_id form)) as [->|Hj].
    + by rewrite String.eqb_refl.
    + destruct (String.eqb_spec (item_id form) j); [congruence|].
      destruct (String.eqb_spec (item_id q) j); [congruence|].
      rewrite IH. by destruct (decide (j = item_id form)).
  - destruct (decide (j = item_id form)) as [->|Hj].
    + destruct (String.eqb_spec (item_id q) (item_id form)); [congruence|].
      rewrite IH. by destruct (decide (item_id form = item_id form)).
    + destruct (String.eqb_spec (item_id q) j); [done|].
      rewrite IH. by destruct (decide (j = item_id form)).
Qed.

(** X18. An accepted edit (a form that carries an id) keeps the number, the
    order and the ids of the stored questions; the lookup of the edited id
    then gives the form's content if the id was in the bank, every other id
    is looked up as before, and when no stored question has the id the bank
    is left exactly as it was, without an alert. *)
Theorem saveQuestion_update
    (prev next : list Item) (form : Item) (fresh : string) (form' : option Item) :
  item_id form <> "" ->
  saveQuestion prev form fresh = (next, form', None) ->
  List.map item_id next = List.map item_id prev
  /\ find_question (List.map as_question next) (item_id form)
     = (fun _ => as_question form)
         <$> find_question (List.map as_question prev) (item_id form)
  /\ (forall j, j <> item_id form ->
        find_question (List.map as_question next) j
        = find_question (List.map as_question prev) j)
  /\ ((forall it, In it prev -> item_id it <> item_id form) -> next = prev).
Proof.
  intros Hid Hsave.
  pose proof (saveQuestion_cases prev form fresh) as Hcases.
  rewrite Hsave in Hcases.
  destruct Hcases as [(? & _) | [(_ & _ & _ & _ & ->) | (_ & _ & _ & ? & _)]];
    [done| |done].
  split; [|split; [|split]].
  - rewrite map_map. apply map_ext_in. intros q _.
    by destruct (String.eqb_spec (item_id q) (item_id form)).
  - rewrite !find_question_map, find_after_replace.
    destruct (decide (item_id form = item_id form)); [|done].
    by destruct (List.find _ prev).
  - intros j Hj. rewrite !find_question_map, find_after_replace.
    by destruct (decide (j = item_id form)).
  - intros Hnone. rewrite <- (map_id prev) at 2. apply map_ext_in. intros q Hq.
    destruct (String.eqb_spec (item_id q) (item_id form)) as [Heq|]; [|done].
    by apply Hnone in Hq.
Qed.

Lemma saveQuestion_update_witness :
  item_id sample_item <> ""
  /\ saveQuestion [with_id sample_item "q0"; with_id sample_item "q1"] sample_item "n1"
     = ([with_id sample_item "q0"; sample_item], None, None)
  /\ List.map item_id [with_id sample_item "q0"; sample_item]
     = List.map item_id [with_id sample_item "q0"; with_id sample_item "q1"].
Proof.
  split; [discriminate|]. split; [reflexivity|].
  apply (saveQuestion_update [with_id sample_item "q0"; with_id sample_item "q1"]
           [with_id sample_item "q0"; sample_item] sample_item "n1" None).
  - discriminate.
  - reflexivity.
Defined.

(** X19. An accepted new question (a form without an id) is stored in
    front under the id [uid()] returned: the bank grows by one, the new id
    is looked up to the new question even when an older question has the
    same id, and every other id is looked up as before. *)
Theorem saveQuestion_create
    (prev next : list Item) (form : Item) (fresh : string) (form' : option Item) :
  item_id form = "" ->
  saveQuestion prev form fresh = (next, form', None) ->
  length next = S (length prev)
  /\ find_question (List.map as_question next) fresh
     = Some (as_question (with_id form fresh))
  /\ (forall j, j <> fresh ->
        find_question (List.map as_question next) j
        = find_question (List.map as_question prev) j).
Proof.
  intros Hid Hsave.
  pose proof (saveQuestion_cases prev form fresh) as Hcases.
  rewrite Hsave in Hcases.
  destruct Hcases as [(? & _) | [(_ & _ & _ & ? & _) | (_ & _ & _ & _ & ->)]];
    [done|done|].
  split; [done|]. split.
  - unfold find_question. simpl. by rewrite String.eqb_refl.
  - intros j Hj. unfold find_question. simpl.
    by destruct (String.eqb_spec fresh j); [congruence|].
Qed.

Lemma saveQuestion_create_witness :
  item_id (with_id sample_item "") = ""
  /\ saveQuestion [sample_item] (with_id sample_item "") "q1"
     = ([with_id sample_item "q1"; sample_item], None, None)
  /\ length [with_id sample_item "q1"; sample_item] = S (length [sample_item]).
Proof.
  split; [reflexivity|]. split; [reflexivity|].
  apply (saveQuestion_create [sample_item] [with_id sample_item "q1"; sample_item]
           (with_id sample_item "") "q1" None); reflexivity.
Defined.

Lemma no_question_has (qs : list Item) (name : string) :
  existsb (fun q => String.eqb (item_ip q) name) qs = false
  <-> forall q, In q qs -> item_ip q <> name.
Proof.
  split.
  - intros Hnone q Hq Heq.
    assert (Hex : existsb (fun q => String.eqb (item_ip q) name) qs = true).
    { apply existsb_exists. exists q. split; [done|]. by apply String.eqb_eq. }
    congruence.
  - intros Hall. destruct (existsb _ qs) eqn:Hex; [|done].
    apply existsb_exists in Hex as (q & Hq & Heq). apply String.eqb_eq in Heq.
    by destruct (Hall q Hq).
Qed.

(** X20. [addNewIp] accepts exactly the names whose trimmed form is not
    empty, is the topic of no question, and for which [hints[name]] is not
    truthy (no own entry and not a member of [Object.prototype], or an own
    entry with the empty text).  An accepted name gets the empty text as its
    entry and the input is cleared, without an alert; a rejected name leaves
    map and input as they were and alerts.  Either way every entry the map
    had is still there with its text. *)
Theorem addNewIp_outcome
    (trim : string -> string) (qs : list Item)
    (hints : gmap string string) (newIp : string) :
  (trim newIp <> "" ->
   (forall q, In q qs -> item_ip q <> trim newIp) ->
   has_hint hints (trim newIp) = false ->
   addNewIp trim qs hints newIp = (<[trim newIp := ""]> hints, "", None))
  /\ (trim newIp = ""
      \/ (exists q, In q qs /\ item_ip q = trim newIp)
      \/ has_hint hints (trim newIp) = true ->
      exists a, addNewIp trim qs hints newIp = (hints, newIp, Some a))
  /\ (forall k text, hints !! k = Some text ->
        (addNewIp trim qs hints newIp).1.1 !! k = Some text).
Proof.
  unfold addNewIp. split; [|split].
  - intros Hname Hqs Hhint.
    destruct (String.eqb_spec (trim newIp) ""); [done|].
    apply no_question_has in Hqs. by rewrite Hqs, Hhint.
  - intros Hrej. destruct (String.eqb_spec (trim newIp) "") as [|Hname]; [eauto|].
    destruct Hrej as [Hblank | [(q & Hq & Heq) | Hhint]]; [done| |].
    + assert (Hex : existsb (fun q => String.eqb (item_ip q) (trim newIp)) qs = true).
      { apply existsb_exists. exists q. split; [done|]. by apply String.eqb_eq. }
      rewrite Hex. simpl. eauto.
    + rewrite Hhint, orb_true_r. eauto.
  - intros k text Hk.
    destruct (String.eqb (trim newIp) ""); [done|].
    destruct (existsb _ qs); simpl; [done|].
    destruct (has_hint hints (trim newIp)) eqn:Hhint; simpl; [done|].
    destruct (decide (k = trim newIp)) as [->|Hne].
    + rewrite lookup_insert_eq. unfold has_hint in Hhint. rewrite Hk in Hhint.
      apply negb_false_iff, String.eqb_eq in Hhint. by subst text.
    + by rewrite lookup_insert_ne.
Qed.

Lemma addNewIp_outcome_witness :
  ("Z" <> ""
   /\ (forall q, In q [sample_item] -> item_ip q <> "Z")
   /\ has_hint {["Y" := "read twice"]} "Z" = false
   /\ addNewIp (fun x => x) [sample_item] {["Y" := "read twice"]} "Z"
      = (<["Z" := ""]> {["Y" := "read twice"]}, "", None))
  /\ (has_hint {["Y" := "read twice"]} "toString" = true
      /\ exists a, addNewIp (fun x => x) [sample_item] {["Y" := "read twice"]} "toString"
                   = ({["Y" := "read twice"]}, "toString", Some a)).
Proof.
  assert (Hname : "Z" <> "") by discriminate.
  assert (Hqs : forall q, In q [sample_item] -> item_ip q <> "Z").
  { intros q [<-|[]]. discriminate. }
  assert (Hfree : has_hint {["Y" := "read twice"]} "Z" = false)
    by (vm_compute; reflexivity).
  assert (Hproto : has_hint {["Y" := "read twice"]} "toString" = true)
    by (vm_compute; reflexivity).
  split.
  - split; [exact Hname|]. split; [exact Hqs|]. split; [exact Hfree|].
    apply (proj1 (addNewIp_outcome (fun x => x) [sample_item]
                    {["Y" := "read twice"]} "Z") Hname Hqs Hfree).
  - split; [exact Hproto|].
    apply (proj1 (proj2 (addNewIp_outcome (fun x => x) [sample_item]
                           {["Y" := "read twice"]} "toString"))).
    right; right. exact Hproto.
Defined.

(** X21. The PIN read back after [setAdminPin(pin)] is [pin], except that
    an empty PIN reads back as the default 1234, which is also the PIN of a
    store without the key; [tryAdmin] switches the administrator mode on
    and clears the input exactly when the input equals that PIN, and
    otherwise alerts and leaves the login state alone. *)
Theorem admin_pin_roundtrip (ls : gmap string string) (pin : string) (lg : Login) :
  getAdminPin (setAdminPin ls pin) = (if decide (pin = "") then "1234" else pin)
  /\ (ls !! LS_PIN = None -> getAdminPin ls = "1234")
  /\ (pinInput lg = getAdminPin ls ->
      tryAdmin ls lg = ({| adminMode := true; pinInput := "" |}, None))
  /\ (pinInput lg <> getAdminPin ls ->
      tryAdmin ls lg = (lg, Some AlertPinWrong)).
Proof.
  split; [|split; [|split]].
  - unfold getAdminPin, setAdminPin. rewrite lookup_insert_eq.
    destruct (String.eqb_spec pin ""); by destruct (decide (pin = "")).
  - unfold getAdminPin. by intros ->.
  - unfold tryAdmin. intros ->. by rewrite String.eqb_refl.
  - unfold tryAdmin. intros Hne. by destruct (String.eqb_spec (pinInput lg) (getAdminPin ls)).
Qed.

Lemma admin_pin_roundtrip_witness :
  (∅ : gmap string string) !! LS_PIN = None
  /\ pinInput {| adminMode := false; pinInput := "1234" |} = getAdminPin (setAdminPin ∅ "")
  /\ tryAdmin (setAdminPin ∅ "") {| adminMode := false; pinInput := "1234" |}
     = ({| adminMode := true; pinInput := "" |}, None).
Proof.
  split; [reflexivity|]. split; [reflexivity|].
  apply (proj1 (proj2 (proj2 (admin_pin_roundtrip (setAdminPin ∅ "") ""
                                {| adminMode := false; pinInput := "1234" |})))).
  reflexivity.
Defined.

(** ** The question store *)

Section Store.
Context {J : Type}.
Variable ops : JsonOps J.

Lemma load_caches (env : DsEnv J) (ls : gmap string string) (st1 : DsState J) (v : J) :
  load ops env ls = (st1, v) -> cache st1 = Some v.
Proof.
  unfold load, adopt. destruct (isDev env).
  - destruct (read_local ops env ls) as [ls1 [parsed|]].
    + by intros [= <- <-].
    + destruct (public_file env); by intros [= <- <-].
  - destruct (api_get env); by intros [= <- <-].
Qed.

Lemma getQuestions_hit (env : DsEnv J) (st : DsState J) (v : J) :
  cache st = Some v -> truthy_json ops v = true ->
  getQuestions ops env st = (st, v).
Proof. unfold getQuestions. by intros -> ->. Qed.

Lemma getQuestions_caches (env : DsEnv J) (st st1 : DsState J) (v : J) :
  getQuestions ops env st = (st1, v) -> cache st1 = Some v.
Proof.
  unfold getQuestions. destruct (cache st) as [c|] eqn:Hc.
  - destruct (truthy_json ops c); [|apply load_caches].
    intros [= <- <-]. exact Hc.
  - apply load_caches.
Qed.

Lemma read_local_new (env : DsEnv J) (ls : gmap string string) (v : J) :
  can_read env = true ->
  stored_array ops (ls !! NEW_KEY) = Some v ->
  read_local ops env ls = (ls, Some v).
Proof.
  unfold read_local, stored_array. intros -> Hnew. simpl.
  destruct (present (ls !! NEW_KEY)) as [text|]; [|done].
  destruct (parse ops text) as [parsed|]; [|done].
  destruct (nonempty_array ops parsed); [|done]. by injection Hnew as ->.
Qed.

Lemma read_local_none (env : DsEnv J) (ls : gmap string string) :
  can_read env = true ->
  stored_array ops (ls !! NEW_KEY) = None ->
  stored_array ops (ls !! OLD_KEY) = None ->
  exists ls1, read_local ops env ls = (ls1, None).
Proof.
  unfold read_local, stored_array. intros -> Hnew Hold. simpl.
  assert (Hkeep : forall ls', try_remove env ls' NEW_KEY !! OLD_KEY = ls' !! OLD_KEY).
  { intros ls'. unfold try_remove. destruct (can_write env); [|done].
    by rewrite lookup_delete_ne. }
  destruct (present (ls !! NEW_KEY)) as [text|].
  - destruct (parse ops text) as [parsed|].
    + destruct (nonempty_array ops parsed); [done|]. rewrite Hkeep.
      destruct (present (ls !! OLD_KEY)) as [old|]; [|eauto].
      destruct (parse ops old) as [parsed'|]; [|eauto].
      destruct (nonempty_array ops parsed'); [done | eauto].
    + destruct (present (ls !! OLD_KEY)) as [old|]; [|eauto].
      destruct (parse ops old) as [parsed'|]; [|eauto].
      destruct (nonempty_array ops parsed'); [done | eauto].
  - destruct (present (ls !! OLD_KEY)) as [old|]; [|eauto].
    destruct (parse ops old) as [parsed'|]; [|eauto].
    destruct (nonempty_array ops parsed'); [done | eauto].
Qed.

Lemma read_local_old (env : DsEnv J) (ls : gmap string string) (v : J) :
  can_read env = true -> can_write env = true ->
  stored_array ops (ls !! NEW_KEY) = None ->
  stored_array ops (ls !! OLD_KEY) = Some v ->
  read_local ops env ls = (<[NEW_KEY := stringify ops v]> ls, Some v).
Proof.
  unfold read_local, stored_array, try_set, try_remove. intros -> -> Hnew Hold. simpl.
  destruct (present (ls !! NEW_KEY)) as [text|].
  - destruct (parse ops text) as [parsed|].
    + destruct (nonempty_array ops parsed); [done|].
      rewrite lookup_delete_ne by done.
      destruct (present (ls !! OLD_KEY)) as [old|]; [|done].
      destruct (parse ops old) as [parsed'|]; [|done].
      destruct (nonempty_array ops parsed'); [|done].
      injection Hold as ->. by rewrite insert_delete_eq.
    + destruct (present (ls !! OLD_KEY)) as [old|]; [|done].
      destruct (parse ops old) as [parsed'|]; [|done].
      destruct (nonempty_array ops parsed'); [|done]. by injection Hold as ->.
  - destruct (present (ls !! OLD_KEY)) as [old|]; [|done].
    destruct (parse ops old) as [parsed'|]; [|done].
    destruct (nonempty_array ops parsed'); [|done]. by injection Hold as ->.
Qed.

Lemma saved_storage (env : DsEnv J) (st : DsState J) (q : J) :
  isDev env = true -> can_write env = true ->
  storage (saveQuestions ops env st q) !! NEW_KEY = Some (stringify ops q)
  /\ storage (saveQuestions ops env st q) !! OLD_KEY = Some (stringify ops q).
Proof.
  unfold saveQuestions, try_set. intros -> ->. simpl. split.
  - rewrite lookup_insert_ne by done. by rewrite lookup_insert_eq.
  - by rewrite lookup_insert_eq.
Qed.

(** X22. What [saveQuestions] was given is what [getQuestions] answers
    next, from the cache: in development or production, whether or not the
    storage or the network work, and without touching either. *)
Theorem save_then_get (env env' : DsEnv J) (st : DsState J) (q : J) :
  truthy_json ops q = true ->
  getQuestions ops env' (saveQuestions ops env st q)
  = (saveQuestions ops env st q, q).
Proof.
  intros Hq. apply getQuestions_hit; [|done].
  unfold saveQuestions. by destruct (isDev env).
Qed.

(** X23. [getQuestions] caches what it answers: once a call has answered
    a truthy value, every later call answers the same value and leaves cache
    and storage alone, whatever the storage and the network then hold. *)
Theorem get_is_sticky (env env' : DsEnv J) (st st1 : DsState J) (v : J) :
  getQuestions ops env st = (st1, v) ->
  truthy_json ops v = true ->
  getQuestions ops env' st1 = (st1, v).
Proof.
  intros Hget Hv. apply getQuestions_hit; [|done].
  by apply (getQuestions_caches env st).
Qed.

(** X24. In production a failed load (network error, response not ok, or
    body that is not JSON) answers the empty array and leaves the storage
    alone; the empty array being truthy, later calls answer it from the
    cache and do not ask the API again, even when it would now answer. *)
Theorem failed_load_is_kept (env env' : DsEnv J) (st : DsState J) :
  isDev env = false ->
  cache st = None ->
  (forall data, api_get env <> Body data) ->
  truthy_json ops (empty_array ops) = true ->
  exists st1, getQuestions ops env st = (st1, empty_array ops)
    /\ storage st1 = storage st
    /\ getQuestions ops env' st1 = (st1, empty_array ops).
Proof.
  intros Hdev Hcache Hfail Htruthy.
  assert (Hget : getQuestions ops env st
                 = ({| cache := Some (empty_array ops); storage := storage st |},
                    empty_array ops)).
  { unfold getQuestions, load. rewrite Hcache, Hdev.
    destruct (api_get env) as [| | |data]; try done. by destruct (Hfail data). }
  eexists. split; [exact Hget|]. split; [done|].
  by apply getQuestions_hit.
Qed.

(** X25. In development, questions found only under the old storage key
    are answered and copied to the new key: when the new key holds no
    non-empty array and the old key holds one, [getQuestions] answers that
    array, caches it and writes it under the new key, leaving the old key as
    it is, whatever the network would answer. *)
Theorem legacy_key_migrated (env : DsEnv J) (st : DsState J) (v : J) :
  isDev env = true -> can_read env = true -> can_write env = true ->
  cache st = None ->
  stored_array ops (storage st !! NEW_KEY) = None ->
  stored_array ops (storage st !! OLD_KEY) = Some v ->
  getQuestions ops env st
  = ({| cache := Some v;
        storage := <[NEW_KEY := stringify ops v]> (storage st) |}, v).
Proof.
  intros Hdev Hread Hwrite Hcache Hnew Hold.
  unfold getQuestions, load. rewrite Hcache, Hdev.
  by rewrite (read_local_old env _ v Hread Hwrite Hnew Hold).
Qed.

(** X26. In development a saved non-empty array survives a page load: after
    [saveQuestions(q)] has written the storage, a fresh module answers [q]
    from the storage, whatever the network would answer, and leaves the
    storage as it is. *)
Theorem saved_questions_survive_reload (env env' : DsEnv J) (st : DsState J) (q : J) :
  isDev env = true -> can_write env = true ->
  isDev env' = true -> can_read env' = true ->
  nonempty_array ops q = true ->
  parse ops (stringify ops q) = Some q ->
  stringify ops q <> "" ->
  getQuestions ops env' (reload (saveQuestions ops env st q))
  = ({| cache := Some q; storage := storage (saveQuestions ops env st q) |}, q).
Proof.
  intros Hdev Hwrite Hdev' Hread Hq Hparse Htext.
  destruct (saved_storage env st q Hdev Hwrite) as [Hnew _].
  unfold getQuestions, load, reload. simpl. rewrite Hdev'.
  rewrite (read_local_new env' _ q Hread); [done|].
  unfold stored_array, present. rewrite Hnew.
  destruct (String.eqb_spec (stringify ops q) ""); [done|].
  by rewrite Hparse, Hq.
Qed.

(** X27. In development an emptied bank does not survive a page load:
    after [saveQuestions(q)] with [q] not a non-empty array, a fresh module
    treats both stored texts as missing and answers the public file if it
    can be fetched, else the bundled questions. *)
Theorem emptied_bank_is_refilled (env env' : DsEnv J) (st : DsState J) (q : J) :
  isDev env = true -> can_write env = true ->
  isDev env' = true -> can_read env' = true ->
  nonempty_array ops q = false ->
  parse ops (stringify ops q) = Some q ->
  exists st1,
    getQuestions ops env' (reload (saveQuestions ops env st q))
    = (st1, fallback ops env')
    /\ cache st1 = Some (fallback ops env').
Proof.
  intros Hdev Hwrite Hdev' Hread Hq Hparse.
  destruct (saved_storage env st q Hdev Hwrite) as [Hnew Hold].
  assert (Hstored : forall k, storage (saveQuestions ops env st q) !! k
                              = Some (stringify ops q) ->
                    stored_array ops (storage (saveQuestions ops env st q) !! k) = None).
  { intros k ->. unfold stored_array, present.
    destruct (String.eqb (stringify ops q) ""); [done|]. by rewrite Hparse, Hq. }
  destruct (read_local_none env' _ Hread (Hstored _ Hnew) (Hstored _ Hold)) as [ls1 Hls1].
  unfold getQuestions, load, reload, fallback. simpl. rewrite Hdev', Hls1.
  destruct (public_file env'); eexists; split; reflexivity.
Qed.

End Store.

Lemma save_then_get_witness :
  truthy_json sample_ops [] = true
  /\ getQuestions sample_ops (sample_env false NetworkError)
       (saveQuestions sample_ops (sample_env false NetworkError) sample_store [])
     = (saveQuestions sample_ops (sample_env false NetworkError) sample_store [], []).
Proof.
  split; [reflexivity|].
  apply (save_then_get sample_ops (sample_env false NetworkError)
           (sample_env false NetworkError) sample_store []).
  reflexivity.
Defined.

Lemma get_is_sticky_witness :
  getQuestions sample_ops (sample_env false (Body [7%nat])) sample_store
  = ({| cache := Some [7%nat]; storage := ∅ |}, [7%nat])
  /\ truthy_json sample_ops [7%nat] = true
  /\ getQuestions sample_ops (sample_env false NetworkError)
       {| cache := Some [7%nat]; storage := ∅ |}
     = ({| cache := Some [7%nat]; storage := ∅ |}, [7%nat]).
Proof.
  split; [reflexivity|]. split; [reflexivity|].
  apply (get_is_sticky sample_ops (sample_env false (Body [7%nat]))
           (sample_env false NetworkError) sample_store); reflexivity.
Defined.

Lemma failed_load_is_kept_witness :
  isDev (sample_env false NotOk) = false
  /\ cache sample_store = None
  /\ (forall data, api_get (sample_env false NotOk) <> Body data)
  /\ truthy_json sample_ops (empty_array sample_ops) = true
  /\ exists st1,
       getQuestions sample_ops (sample_env false NotOk) sample_store
       = (st1, empty_array sample_ops)
       /\ storage st1 = storage sample_store
       /\ getQuestions sample_ops (sample_env false (Body [7%nat])) st1
          = (st1, empty_array sample_ops).
Proof.
  assert (Hfail : forall data, api_get (sample_env false NotOk) <> Body data)
    by (intros data; discriminate).
  split; [reflexivity|]. split; [reflexivity|]. split; [exact Hfail|].
  split; [reflexivity|].
  apply (failed_load_is_kept sample_ops (sample_env false NotOk)
           (sample_env false (Body [7%nat])) sample_store
           eq_refl eq_refl Hfail eq_refl).
Defined.

Lemma legacy_key_migrated_witness :
  stored_array sample_ops (({[OLD_KEY := "[7]"]} : gmap string string) !! NEW_KEY) = None
  /\ stored_array sample_ops (({[OLD_KEY := "[7]"]} : gmap string string) !! OLD_KEY)
     = Some [7%nat]
  /\ getQuestions sample_ops (sample_env true NetworkError)
       {| cache := None; storage := {[OLD_KEY := "[7]"]} |}
     = ({| cache := Some [7%nat];
           storage := <[NEW_KEY := "[7]"]> {[OLD_KEY := "[7]"]} |}, [7%nat]).
Proof.
  split; [reflexivity|]. split; [reflexivity|].
  exact (legacy_key_migrated sample_ops (sample_env true NetworkError)
           {| cache := None; storage := {[OLD_KEY := "[7]"]} |} [7%nat]
           eq_refl eq_refl eq_refl eq_refl eq_refl eq_refl).
Defined.

Lemma saved_questions_survive_reload_witness :
  nonempty_array sample_ops [7%nat] = true
  /\ parse sample_ops (stringify sample_ops [7%nat]) = Some [7%nat]
  /\ stringify sample_ops [7%nat] <> ""
  /\ getQuestions sample_ops (sample_env true NetworkError)
       (reload (saveQuestions sample_ops (sample_env true NetworkError)
                  sample_store [7%nat]))
     = ({| cache := Some [7%nat];
           storage := storage (saveQuestions sample_ops (sample_env true NetworkError)
                                 sample_store [7%nat]) |}, [7%nat]).
Proof.
  split; [reflexivity|]. split; [reflexivity|]. split; [discriminate|].
  apply (saved_questions_survive_reload sample_ops (sample_env true NetworkError)
           (sample_env true NetworkError) sample_store [7%nat]);
    try reflexivity.
  discriminate.
Defined.

Lemma emptied_bank_is_refilled_witness :
  nonempty_array sample_ops [] = false
  /\ parse sample_ops (stringify sample_ops []) = Some []
  /\ exists st1,
       getQuestions sample_ops (sample_env true NetworkError)
         (reload (saveQuestions sample_ops (sample_env true NetworkError)
                    sample_store []))
       = (st1, [7%nat])
       /\ cache st1 = Some [7%nat].
Proof.
  split; [reflexivity|]. split; [reflexivity|].
  apply (emptied_bank_is_refilled sample_ops (sample_env true NetworkError)
           (sample_env true NetworkError) sample_store []);
    reflexivity.
Defined.

(** ** Phases through the controls *)

Lemma click_start (st : App) :
  phase st = pick -> basket st <> [] ->
  click st BtnStart = Returned (set_tab (set_phase st running) quiz, None).
Proof.
  intros Hp Hbk. unfold click. simpl. unfold startQuiz. rewrite Hp.
  by destruct (basket st) as [|i bk].
Qed.

Lemma click_elsewhere (st : App) (c : Control) :
  usable st c = false -> click st c = Returned (st, None).
Proof. unfold click. by intros ->. Qed.

(** C4. The phase moves only by the designated control of the current
    phase.  Whenever a click changes the phase, it was start in pick
    leading to running, reveal in running leading to confirm, finish in
    confirm leading to finished, or reset leading to pick.  Each of these
    moves does take place: start with a non-empty basket in pick, reveal in
    running, finish in confirm, and reset in any phase.  And start, reveal
    and finish outside their phase do nothing at all: the start button is
    disabled, the other two are not rendered. *)
Theorem phase_moves_by_designated_control (st : App) :
  (forall c st' msg,
     click st c = Returned (st', msg) -> phase st' <> phase st ->
     designated (phase st) c (phase st'))
  /\ (phase st = pick -> basket st <> [] ->
      exists st', click st BtnStart = Returned (st', None) /\ phase st' = running)
  /\ (phase st = running ->
      exists st', click st BtnReveal = Returned (st', None) /\ phase st' = confirm)
  /\ (phase st = confirm ->
      exists st', click st BtnFinish = Returned (st', None) /\ phase st' = finished)
  /\ (exists st', click st BtnReset = Returned (st', None) /\ phase st' = pick)
  /\ (phase st <> pick -> click st BtnStart = Returned (st, None))
  /\ (phase st <> running -> click st BtnReveal = Returned (st, None))
  /\ (phase st <> confirm -> click st BtnFinish = Returned (st, None)).
Proof.
  split; [intros c st' msg; apply clicks_phase_guarded|].
  split; [intros Hp Hbk; rewrite click_start by done; eauto|].
  split.
  { intros Hp. unfold click. simpl. rewrite bool_decide_eq_true_2 by done.
    unfold revealReferences. eauto. }
  split.
  { intros Hp. unfold click. simpl. rewrite bool_decide_eq_true_2 by done.
    unfold finishAndShowScore. eauto. }
  split; [unfold click, resetAll; simpl; eauto|].
  split; [|split]; intros Hp; apply click_elsewhere; simpl.
  - rewrite (bool_decide_eq_false_2 (phase st = pick)) by done.
    by rewrite orb_true_r.
  - by apply bool_decide_eq_false_2.
  - by apply bool_decide_eq_false_2.
Qed.

Lemma phase_moves_by_designated_control_witness :
  (phase (sample_state ["q1"] pick) = pick
   /\ basket (sample_state ["q1"] pick) <> []
   /\ exists st', click (sample_state ["q1"] pick) BtnStart = Returned (st', None)
                  /\ phase st' = running)
  /\ (phase (sample_state ["q1"] running) = running
      /\ exists st', click (sample_state ["q1"] running) BtnReveal = Returned (st', None)
                     /\ phase st' = confirm)
  /\ (phase (sample_state ["q1"] confirm) = confirm
      /\ exists st', click (sample_state ["q1"] confirm) BtnFinish = Returned (st', None)
                     /\ phase st' = finished)
  /\ (phase (sample_state ["q1"] pick) <> running
      /\ click (sample_state ["q1"] pick) BtnReveal
         = Returned (sample_state ["q1"] pick, None))
  /\ (phase (sample_state ["q1"] finished) <> pick
      /\ click (sample_state ["q1"] finished) BtnStart
         = Returned (sample_state ["q1"] finished, None)).
Proof.
  split; [|split; [|split; [|split]]].
  - split; [reflexivity|]. split; [simpl; discriminate|].
    apply (proj1 (proj2 (phase_moves_by_designated_control (sample_state ["q1"] pick)))).
    + reflexivity.
    + simpl. discriminate.
  - split; [reflexivity|].
    apply (proj1 (proj2 (proj2
             (phase_moves_by_designated_control (sample_state ["q1"] running))))).
    reflexivity.
  - split; [reflexivity|].
    apply (proj1 (proj2 (proj2 (proj2
             (phase_moves_by_designated_control (sample_state ["q1"] confirm)))))).
    reflexivity.
  - split; [simpl; discriminate|].
    apply (proj1 (proj2 (proj2 (proj2 (proj2 (proj2 (proj2
             (phase_moves_by_designated_control (sample_state ["q1"] pick))))))))).
    simpl. discriminate.
  - split; [simpl; discriminate|].
    apply (proj1 (proj2 (proj2 (proj2 (proj2 (proj2
             (phase_moves_by_designated_control (sample_state ["q1"] finished)))))))).
    simpl. discriminate.
Defined.

Lemma click_outside_pick (st st' : App) (c : Control) (msg : option Alert) :
  phase st <> pick -> c <> BtnReset ->
  click st c = Returned (st', msg) ->
  basket st' = basket st /\ questions st' = questions st /\ answers st' = answers st.
Proof.
  intros Hphase Hc. unfold click.
  destruct c as [| | | |i]; simpl; try done.
  - rewrite bool_decide_eq_false_2 by done. rewrite orb_true_r. simpl.
    by intros [= <- _].
  - destruct (bool_decide _); by intros [= <- _].
  - destruct (bool_decide _); by intros [= <- _].
  - rewrite (bool_decide_eq_false_2 (phase st = pick)) by done.
    rewrite andb_false_r. simpl. by intros [= <- _].
Qed.



(** ** The multi-select version: selection and scoring *)

Lemma multi_count_loop_returns (qs : list Multi.Question) (bk : list string) :
  forall m, exists m', Multi.count_loop qs m bk = Returned m'.
Proof.
  induction bk as [|i bk IH]; intros m; simpl; [eauto|].
  unfold Multi.count_step. destruct (Multi.find_question qs i); simpl; apply IH.
Qed.

Lemma click_absent_toggle (st : App) (i : string) :
  find_question (questions st) i = None ->
  click st (BtnToggle i) = Returned (st, None).
Proof.
  intros Hq. apply click_elsewhere.
  destruct (usable st (BtnToggle i)) eqn:Huse; [|done].
  simpl in Huse. apply andb_prop in Huse as [_ Hvis].
  apply existsb_exists in Hvis as (q & Hvis & Hid).
  apply String.eqb_eq in Hid. subst i.
  apply visibleQuestions_in_bank, find_question_of_member in Hvis as [q' Hq'].
  congruence.
Qed.

(** C3. Toggling an id that is not in the basket and whose question is not
    in the collection is a no-op without an error.  In the multi-select
    version [toggleBasket] returns on [!q] before it reads the topic: the
    state is unchanged and nothing is alerted, in every phase.  In the
    single-index versions the handler has no such test, and is reached only
    by the toggle button of a card, which exists for questions of the
    collection only: a click for an absent id changes nothing and throws
    nothing. *)
Theorem toggle_absent_question_is_noop :
  (forall (st : Multi.App) (i : string),
     inBasket (Multi.basket st) i = false ->
     Multi.find_question (Multi.questions st) i = None ->
     Multi.toggleBasket st i = Returned (st, None))
  /\ (forall (st : App) (i : string),
        inBasket (basket st) i = false ->
        find_question (questions st) i = None ->
        click st (BtnToggle i) = Returned (st, None)).
Proof.
  split.
  - intros st i Hin Hq. unfold Multi.toggleBasket, Multi.perIPCounts.
    destruct (multi_count_loop_returns (Multi.questions st) (Multi.basket st) ∅)
      as (m & ->). simpl.
    destruct (bool_decide (Multi.phase st = pick)); simpl; [|done].
    by rewrite Hin, Hq.
  - intros st i _ Hq. by apply click_absent_toggle.
Qed.

Lemma toggle_absent_question_is_noop_witness :
  (inBasket (Multi.basket (Multi.sample_app ["m1"] pick)) "gone" = false
   /\ Multi.find_question (Multi.questions (Multi.sample_app ["m1"] pick)) "gone" = None
   /\ Multi.toggleBasket (Multi.sample_app ["m1"] pick) "gone"
      = Returned (Multi.sample_app ["m1"] pick, None))
  /\ (inBasket (basket (sample_state ["q1"] pick)) "gone" = false
      /\ find_question (questions (sample_state ["q1"] pick)) "gone" = None
      /\ click (sample_state ["q1"] pick) (BtnToggle "gone")
         = Returned (sample_state ["q1"] pick, None)).
Proof.
  split.
  - split; [reflexivity|]. split; [reflexivity|].
    apply (proj1 toggle_absent_question_is_noop (Multi.sample_app ["m1"] pick) "gone");
      reflexivity.
  - split; [reflexivity|]. split; [reflexivity|].
    apply (proj2 toggle_absent_question_is_noop (sample_state ["q1"] pick) "gone");
      reflexivity.
Defined.

Lemma js_set_to_set (l : list Z) :
  (list_to_set (Multi.js_set l) : gset Z) = list_to_set l.
Proof.
  apply set_eq. intros x. unfold Multi.js_set.
  by rewrite !elem_of_list_to_set, elem_of_remove_dups.
Qed.

Lemma js_set_size (l : list Z) :
  Multi.size_of (Multi.js_set l) = size (list_to_set l : gset Z).
Proof.
  rewrite <- js_set_to_set. unfold Multi.size_of, Multi.js_set.
  symmetry. apply size_list_to_set, NoDup_remove_dups.
Qed.

Lemma js_set_all_in (l1 l2 : list Z) :
  forallb (fun x => Multi.has (Multi.js_set l2) x) (Multi.js_set l1) = true
  <-> (list_to_set l1 : gset Z) ⊆ list_to_set l2.
Proof.
  rewrite forallb_forall. unfold Multi.has, Multi.js_set. split.
  - intros Hall x Hx. rewrite elem_of_list_to_set in Hx |- *.
    rewrite <- (elem_of_remove_dups l1 x) in Hx. apply list_elem_of_In in Hx.
    apply Hall in Hx. apply bool_decide_eq_true_1 in Hx.
    by rewrite elem_of_remove_dups in Hx.
  - intros Hsub x Hx. apply bool_decide_eq_true_2.
    apply list_elem_of_In in Hx. rewrite elem_of_remove_dups in Hx |- *.
    specialize (Hsub x). rewrite !elem_of_list_to_set in Hsub. by apply Hsub.
Qed.

(** The test of the scorer is equality of the two sets of indices. *)
Lemma exact_match_spec (correct chosen : option (list Z)) :
  Multi.exact_match correct chosen = true
  <-> (list_to_set (Multi.or_empty chosen) : gset Z)
      = list_to_set (Multi.or_empty correct).
Proof.
  unfold Multi.exact_match.
  rewrite !andb_true_iff, !js_set_all_in, Nat.eqb_eq, !js_set_size. split.
  - intros [[H1 H2] _]. apply set_eq. intros x. split; [apply H2 | apply H1].
  - intros Heq. rewrite Heq. done.
Qed.

Lemma multi_score_step_mcq (qs : list Multi.Question)
    (ans_of : gmap string Multi.Answer) (acc : Summary) (i : string)
    (q : Multi.Question) :
  Multi.find_question qs i = Some q ->
  Multi.type q = mcq ->
  exists r, Multi.score_step qs ans_of acc i = Returned r
    /\ total r = total acc +
         match ans_of !! i with
         | Some a =>
             match Multi.chosenIndices a with
             | Some chosen =>
                 if Multi.exact_match (Multi.correctIndices q) (Some chosen)
                 then LEVEL_POINTS (Multi.level q) else 0
             | None => 0
             end
         | None => 0
         end.
Proof.
  intros Hq Hty. unfold Multi.score_step. rewrite Hq. simpl. rewrite Hty. simpl.
  destruct (ans_of !! i) as [a|]; simpl; [|eauto].
  destruct (Multi.chosenIndices a) as [chosen|]; simpl; [|eauto].
  destruct (Multi.exact_match _ _); simpl; eauto.
Qed.

Lemma exact_match_award_eq (points : Z) (correct chosen : gset Z) (b : bool) :
  (b = true <-> chosen = correct) ->
  (if b then points else 0) = exact_match_award points correct chosen.
Proof.
  intros Hb. unfold exact_match_award.
  destruct (bool_decide_reflect (chosen = correct)) as [Heq|Hne].
  - apply Hb in Heq. by rewrite Heq.
  - destruct b; [|done]. by destruct Hne; apply Hb.
Qed.

(** C1. Exact-match scoring of a multiple-choice question found in the
    collection: the scorer adds the question's full point value when the
    set of chosen indices equals the set of correct indices, and 0
    otherwise; with no answer record, or none that holds chosen indices,
    the chosen set is empty.  A question has at least one correct index.
    When the record holds chosen indices the rule holds whatever the
    question's array is.
    With the correct indices 0 and 2 and 2 points: chosen 0 and 2 (in
    either order) is awarded 2; chosen 0 alone, chosen 0, 1 and 2, chosen
    nothing and no answer record are each awarded 0.
    In the single-index versions of the component the question holds one
    correct index and the answer at most one chosen index, and the award is
    the same rule on these sets of at most one member. *)
Theorem exact_match_scoring :
  (forall qs ans_of acc i q correct,
     Multi.find_question qs i = Some q ->
     Multi.type q = mcq ->
     Multi.correctIndices q = Some correct ->
     correct <> [] ->
     exists r, Multi.score_step qs ans_of acc i = Returned r
       /\ total r = total acc +
            exact_match_award (LEVEL_POINTS (Multi.level q))
              (list_to_set correct) (Multi.chosen_set (ans_of !! i)))
  /\ (forall qs ans_of acc i q a chosen,
        Multi.find_question qs i = Some q ->
        Multi.type q = mcq ->
        ans_of !! i = Some a ->
        Multi.chosenIndices a = Some chosen ->
        exists r, Multi.score_step qs ans_of acc i = Returned r
          /\ total r = total acc +
               exact_match_award (LEVEL_POINTS (Multi.level q))
                 (list_to_set (Multi.or_empty (Multi.correctIndices q)))
                 (list_to_set chosen))
  /\ ((exists r, Multi.scoreSummary [Multi.sample_two] ["m1"] (Multi.chose [0; 2])
                 = Returned r /\ total r = 2)
      /\ (exists r, Multi.scoreSummary [Multi.sample_two] ["m1"] (Multi.chose [2; 0])
                    = Returned r /\ total r = 2)
      /\ (exists r, Multi.scoreSummary [Multi.sample_two] ["m1"] (Multi.chose [0])
                    = Returned r /\ total r = 0)
      /\ (exists r, Multi.scoreSummary [Multi.sample_two] ["m1"] (Multi.chose [0; 1; 2])
                    = Returned r /\ total r = 0)
      /\ (exists r, Multi.scoreSummary [Multi.sample_two] ["m1"] (Multi.chose [])
                    = Returned r /\ total r = 0)
      /\ (exists r, Multi.scoreSummary [Multi.sample_two] ["m1"] ∅
                    = Returned r /\ total r = 0))
  /\ (forall qs ans_of acc i q k,
        find_question qs i = Some q ->
        type q = mcq ->
        correctIndex q = JNum k ->
        exists r, score_step qs ans_of acc i = Returned r
          /\ total r = total acc +
               exact_match_award (LEVEL_POINTS (level q))
                 {[k]} (chosen_singleton (ans_of !! i))).
Proof.
  split; [|split; [|split]].
  - intros qs ans_of acc i q correct Hq Hty Hcorrect Hne.
    destruct (multi_score_step_mcq qs ans_of acc i q Hq Hty) as (r & Hr & Htotal).
    exists r. split; [exact Hr|]. rewrite Htotal. f_equal.
    assert (Hnonempty : (∅ : gset Z) <> list_to_set correct).
    { destruct correct as [|c correct]; [done|]. intros Heq.
      assert (Hc : c ∈ (∅ : gset Z)) by (rewrite Heq; set_solver).
      set_solver. }
    unfold Multi.chosen_set. destruct (ans_of !! i) as [a|].
    + destruct (Multi.chosenIndices a) as [chosen|]; simpl.
      * apply exact_match_award_eq. rewrite exact_match_spec, Hcorrect. done.
      * unfold exact_match_award. by rewrite bool_decide_eq_false_2.
    + unfold exact_match_award. by rewrite bool_decide_eq_false_2.
  - intros qs ans_of acc i q a chosen Hq Hty Ha Hchosen.
    destruct (multi_score_step_mcq qs ans_of acc i q Hq Hty) as (r & Hr & Htotal).
    exists r. split; [exact Hr|]. rewrite Htotal, Ha, Hchosen. f_equal.
    apply exact_match_award_eq. by rewrite exact_match_spec.
  - repeat split; (eexists; split; [vm_compute; reflexivity | reflexivity]).
  - intros qs ans_of acc i q k Hq Hty Hk.
    rewrite (score_step_found _ _ _ _ _ Hq). eexists. split; [reflexivity|].
    simpl. f_equal. unfold gain, chosen_singleton. rewrite Hty, Hk.
    assert (Hnonempty : (∅ : gset Z) <> {[k]}).
    { intros Heq. assert (Hc : k ∈ (∅ : gset Z)) by (rewrite Heq; set_solver).
      set_solver. }
    destruct (ans_of !! i) as [a|];
      [|unfold exact_match_award; by rewrite bool_decide_eq_false_2].
    destruct (choiceIndex a) as [| |b|n|t|l]; simpl;
      try (unfold exact_match_award; by rewrite bool_decide_eq_false_2).
    apply exact_match_award_eq. rewrite Z.eqb_eq. split.
    + by intros ->.
    + intros Heq. assert (Hn : n ∈ ({[k]} : gset Z)) by (rewrite <- Heq; set_solver).
      set_solver.
Qed.

Lemma exact_match_scoring_witness :
  Multi.find_question [Multi.sample_two] "m1" = Some Multi.sample_two
  /\ Multi.type Multi.sample_two = mcq
  /\ Multi.correctIndices Multi.sample_two = Some [0; 2]
  /\ [0; 2] <> ([] : list Z)
  /\ exists r,
       Multi.score_step [Multi.sample_two] (Multi.chose [2; 0; 2]) summary0 "m1"
       = Returned r
       /\ total r = total summary0 +
            exact_match_award (LEVEL_POINTS (Multi.level Multi.sample_two))
              (list_to_set [0; 2])
              (Multi.chosen_set (Multi.chose [2; 0; 2] !! "m1")).
Proof.
  split; [reflexivity|]. split; [reflexivity|]. split; [reflexivity|].
  split; [discriminate|].
  apply (proj1 exact_match_scoring [Multi.sample_two] (Multi.chose [2; 0; 2])
           summary0 "m1" Multi.sample_two [0; 2]); try reflexivity.
  discriminate.
Defined.

End Quiz.
